(** * Caret LLM adapter: the event-to-stream bridge of [llm_calls.ts]

    A shallow embedding of the generic [AsyncEventQueue<T>] class, of the
    Copilot session plumbing built on top of it ([copilot_sdk_streaming],
    [copilot_sdk_completion]) and of [ai_sdk_structured], together with the
    properties the design document states about them.

    JavaScript is single threaded: every method body below runs to its end
    before anything else happens, so each method is a function on the state
    of the objects it touches.  Promises are modelled by identifiers; the
    order in which pending promises are settled is kept in a ghost log. *)

From Stdlib Require Import String ZArith Bool Arith Lia List Permutation.
Import ListNotations.

Set Implicit Arguments.

(** ** JavaScript values shared by all components *)

(** [new Error(message)]. *)
Record JsError : Type := mkError { message : string }.

(** [IteratorResult<T>]: [{ value, done: false }] or
    [{ value: undefined, done: true }]. *)
Inductive IteratorResult (T : Type) : Type :=
| IterValue (value : T)
| IterDone.
Arguments IterDone {T}.

(** How a promise returned by [next] is settled. *)
Inductive Settlement (T : Type) : Type :=
| Resolve (r : IteratorResult T)
| Reject (e : JsError).
Arguments Reject {T} e.

Definition PromiseId := nat.

(** What [next] hands back: a promise that is already settled
    ([Promise.resolve] / [Promise.reject]) or a fresh pending one. *)
Inductive NextPromise (T : Type) : Type :=
| Settled (s : Settlement T)
| Pending (p : PromiseId).
Arguments Pending {T} p.

(** ** class AsyncEventQueue<T> *)

Module AsyncEventQueue.

(** The private fields of the class, in declaration order, followed by
    ghost fields: [promises] counts the pending promises created so far
    (it names the next one), [settled] logs every [resolve]/[reject]
    call made on a pending promise, [warnings] counts [console.warn]
    calls. *)
Record t (T : Type) : Type := mk {
  queue : list T;
  resolvers : list PromiseId;
  rejecters : list PromiseId;
  done : bool;
  error : option JsError;
  maxSize : Z;
  promises : nat;
  settled : list (PromiseId * Settlement T);
  warnings : nat
}.

Section Methods.
Context {T : Type}.
Implicit Type q : t T.

(** [constructor(maxSize: number = 1000)] *)
Definition create (maxSize : Z) : t T :=
  mk [] [] [] false None maxSize 0 [] 0.

Definition default_maxSize : Z := 1000.

(** [push(value)] *)
Definition push (value : T) q : t T :=
  if done q then q
  else
    match resolvers q with
    | resolve :: rest =>
        mk (queue q) rest (tl (rejecters q)) (done q) (error q) (maxSize q)
           (promises q)
           (settled q ++ [(resolve, Resolve (IterValue value))])
           (warnings q)
    | [] =>
        if (Z.of_nat (length (queue q)) >=? maxSize q)%Z
        then mk (tl (queue q) ++ [value]) (resolvers q) (rejecters q)
                (done q) (error q) (maxSize q) (promises q) (settled q)
                (S (warnings q))
        else mk (queue q ++ [value]) (resolvers q) (rejecters q)
                (done q) (error q) (maxSize q) (promises q) (settled q)
                (warnings q)
    end.

(** The [while (this.resolvers.length > 0)] loop of [complete]. *)
Fixpoint complete_loop (rs rj : list PromiseId)
         (log : list (PromiseId * Settlement T))
  : list PromiseId * list PromiseId * list (PromiseId * Settlement T) :=
  match rs with
  | [] => (rs, rj, log)
  | resolve :: rs' =>
      complete_loop rs' (tl rj) (log ++ [(resolve, Resolve IterDone)])
  end.

(** [complete()] *)
Definition complete q : t T :=
  let '(rs, rj, log) := complete_loop (resolvers q) (rejecters q) (settled q) in
  mk (queue q) rs rj true (error q) (maxSize q) (promises q) log (warnings q).

(** The [while (this.rejecters.length > 0)] loop of [fail]. *)
Fixpoint fail_loop (e : JsError) (rj rs : list PromiseId)
         (log : list (PromiseId * Settlement T))
  : list PromiseId * list PromiseId * list (PromiseId * Settlement T) :=
  match rj with
  | [] => (rs, rj, log)
  | reject :: rj' =>
      fail_loop e rj' (tl rs) (log ++ [(reject, Reject e)])
  end.

(** [fail(error)] *)
Definition fail (e : JsError) q : t T :=
  let '(rs, rj, log) := fail_loop e (rejecters q) (resolvers q) (settled q) in
  mk (queue q) rs rj true (Some e) (maxSize q) (promises q) log (warnings q).

(** [[Symbol.asyncIterator]().next()] *)
Definition next q : NextPromise T * t T :=
  match queue q with
  | v :: rest =>
      (Settled (Resolve (IterValue v)),
       mk rest (resolvers q) (rejecters q) (done q) (error q) (maxSize q)
          (promises q) (settled q) (warnings q))
  | [] =>
      match error q with
      | Some e => (Settled (Reject e), q)
      | None =>
          if done q then (Settled (Resolve IterDone), q)
          else
            let p := promises q in
            (Pending p,
             mk (queue q) (resolvers q ++ [p]) (rejecters q ++ [p])
                (done q) (error q) (maxSize q) (S p) (settled q)
                (warnings q))
      end
  end.

(** *** Producers and consumers *)

(** A producer that pushes the values of [vs] one after the other. *)
Definition pushes (vs : list T) q : t T :=
  fold_left (fun acc v => push v acc) vs q.

(** A consumer that calls [next] [n] times in a row. *)
Fixpoint pull_n (n : nat) q : list (NextPromise T) * t T :=
  match n with
  | O => ([], q)
  | S n' =>
      let (r, q1) := next q in
      let (rs, q2) := pull_n n' q1 in
      (r :: rs, q2)
  end.

(** A [for await] consumer: it pulls while it is handed values and stops
    at the first end of sequence, rejection, or promise left pending.
    [fuel] bounds the number of pulls. *)
Fixpoint pull_until_done (fuel : nat) q : list (NextPromise T) * t T :=
  match fuel with
  | O => ([], q)
  | S fuel' =>
      let (r, q1) := next q in
      match r with
      | Settled (Resolve (IterValue _)) =>
          let (rs, q2) := pull_until_done fuel' q1 in
          (r :: rs, q2)
      | _ => ([r], q1)
      end
  end.

(** Arbitrary histories of method calls. *)
Inductive Op : Type :=
| OpPush (v : T)
| OpComplete
| OpFail (e : JsError)
| OpNext.

Definition step q (o : Op) : t T :=
  match o with
  | OpPush v => push v q
  | OpComplete => complete q
  | OpFail e => fail e q
  | OpNext => snd (next q)
  end.

Definition run (ops : list Op) q : t T := fold_left step ops q.

(** The [k] most recently pushed values of a history of pushes. *)
Definition most_recent (k : nat) (vs : list T) : list T :=
  skipn (length vs - k) vs.

(** A queue nobody is waiting on and that has not been closed. *)
Definition idle q : Prop := done q = false /\ resolvers q = [].

(** What a pull meets once the buffer is empty. *)
Definition at_empty q : NextPromise T :=
  match error q with
  | Some e => Settled (Reject e)
  | None =>
      if done q then Settled (Resolve IterDone) else Pending (promises q)
  end.

(** What every history of calls keeps true: the two continuation arrays
    stay paired, and nobody is left waiting on a closed queue. *)
Definition consistent q : Prop :=
  rejecters q = resolvers q /\ (done q = true -> resolvers q = []).

End Methods.

Arguments Op T : clear implicits.

End AsyncEventQueue.

Import AsyncEventQueue.

(** The values a consumer is handed, as settled promises. *)
Definition delivered {T} (vs : list T) : list (NextPromise T) :=
  map (fun v => Settled (Resolve (IterValue v))) vs.

(** ** Exceptions and mutable state

    A JavaScript computation either returns or throws, and what it wrote to
    the heap before throwing stays written: the state is threaded through
    both outcomes. *)

(** A thrown value: an [Error] object, or anything else (kept as the string
    [String(err)] yields for it). *)
Inductive Thrown : Type :=
| ThrowError (e : JsError)
| ThrowOther (repr : string).

(** [err instanceof Error ? err : new Error(String(err))] *)
Definition as_error (t : Thrown) : JsError :=
  match t with
  | ThrowError e => e
  | ThrowOther repr => mkError repr
  end.

Inductive Outcome (A : Type) : Type :=
| Returned (a : A)
| Threw (t : Thrown).
Arguments Threw {A} t.

Definition Js (S A : Type) : Type := S -> Outcome A * S.

Section JsMonad.
Context {S : Type}.

Definition ret {A} (a : A) : Js S A := fun s => (Returned a, s).

Definition throw {A} (t : Thrown) : Js S A := fun s => (Threw t, s).

Definition bind {A B} (m : Js S A) (k : A -> Js S B) : Js S B :=
  fun s =>
    match m s with
    | (Returned a, s1) => k a s1
    | (Threw t, s1) => (Threw t, s1)
    end.

(** [try { m } catch (err) { h err }] *)
Definition try_catch {A} (m : Js S A) (h : Thrown -> Js S A) : Js S A :=
  fun s =>
    match m s with
    | (Returned a, s1) => (Returned a, s1)
    | (Threw t, s1) => h t s1
    end.

(** [try { m } finally { f }]: [f] always runs; the outcome is the one of
    [m] unless [f] itself throws. *)
Definition try_finally {A} (m : Js S A) (f : Js S unit) : Js S A :=
  fun s =>
    let (r, s1) := m s in
    match f s1 with
    | (Returned _, s2) => (r, s2)
    | (Threw t, s2) => (Threw t, s2)
    end.

(** A statement that only updates the state. *)
Definition modify (f : S -> S) : Js S unit := fun s => (Returned tt, f s).

End JsMonad.

Declare Scope js_scope.
Delimit Scope js_scope with js.
Notation "x <- m ;; k" := (bind m (fun x => k))
  (at level 61, m at next level, right associativity) : js_scope.
Notation "m ;; k" := (bind m (fun _ => k))
  (at level 61, right associativity) : js_scope.
Open Scope js_scope.

(** [o || d] for a value that is a string, [undefined] or [null]: the empty
    string is falsy as well. *)
Definition or_default (o : option string) (d : string) : string :=
  match o with
  | Some s => if (s =? "")%string then d else s
  | None => d
  end.

(** ** Conversations and their validation *)

Module Message.
Record t : Type := mk { role : string; content : string }.
End Message.

(** [z.enum(["system", "user", "assistant"])] on the [role] field; [content]
    is a string by the parameter's type. *)
Definition MessageSchema (m : Message.t) : bool :=
  existsb (String.eqb (Message.role m)) ["system"; "user"; "assistant"]%string.

(** The error [parse] of the external validator throws. *)
Definition ZodError : JsError := mkError "ZodError".

(** [ConversationSchema.parse(conversation)] *)
Definition ConversationSchema_parse {S} (conversation : list Message.t)
  : Js S (list Message.t) :=
  if forallb MessageSchema conversation then ret conversation
  else throw (ThrowError ZodError).

(** [conversation.filter(m => m.role === 'user').pop()] *)
Definition lastUserMessage (conversation : list Message.t) : option Message.t :=
  last (map Some (filter (fun m => (Message.role m =? "user")%string) conversation))
       None.

(** ** The Copilot session and what it emits *)

Module Event.
(** [event.data]: [deltaContent] is [Some s] exactly when
    [typeof event.data.deltaContent === 'string']; [message] is [None]
    when the field is [undefined] or [null]. *)
Record Data : Type := mkData {
  deltaContent : option string;
  message : option string
}.
(** [type] is [Some s] exactly when [typeof event.type === 'string']. *)
Record t : Type := mk { type : option string; data : option Data }.
End Event.

Module Response.
Record Data : Type := mkData { content : option string }.
Record t : Type := mk { data : option Data }.
End Response.

(** [response?.data?.content] *)
Definition response_content (response : option Response.t) : option string :=
  match response with
  | Some r =>
      match Response.data r with
      | Some d => Response.content d
      | None => None
      end
  | None => None
  end.

(** The behaviour of the external Copilot client for one call: whether
    [createSession] throws, what the session emits while [send] is awaited
    and whether [send] then throws, what [sendAndWait] yields, and whether
    [destroy] throws.  A falsy event ([null], [undefined]) is [None]. *)
Record Backend : Type := mkBackend {
  createSession_throws : option Thrown;
  send_events : list (option Event.t);
  send_throws : option Thrown;
  sendAndWait_result : Outcome (option Response.t);
  destroy_throws : option Thrown
}.

(** The objects one [copilot_sdk_streaming] / [copilot_sdk_completion] call
    works on: its two queues, its [cleanedUp] flag, whether the handler
    passed to [session.on] is still registered, the calls received by the
    session created last, and the notices and console lines written. *)
Record World : Type := mkWorld {
  textQueue : AsyncEventQueue.t string;
  reasoningQueue : AsyncEventQueue.t string;
  cleanedUp : bool;
  subscribed : bool;
  sessions : nat;
  sent : list string;
  aborts : nat;
  destroys : nat;
  notices : list string;
  console : list string
}.

Definition world0 : World :=
  mkWorld (create default_maxSize) (create default_maxSize)
          false false 0 [] 0 0 [] [].

Definition on_textQueue
  (f : AsyncEventQueue.t string -> AsyncEventQueue.t string) : Js World unit :=
  modify (fun w =>
    mkWorld (f (textQueue w)) (reasoningQueue w) (cleanedUp w) (subscribed w)
            (sessions w) (sent w) (aborts w) (destroys w) (notices w) (console w)).

Definition on_reasoningQueue
  (f : AsyncEventQueue.t string -> AsyncEventQueue.t string) : Js World unit :=
  modify (fun w =>
    mkWorld (textQueue w) (f (reasoningQueue w)) (cleanedUp w) (subscribed w)
            (sessions w) (sent w) (aborts w) (destroys w) (notices w) (console w)).

(** [new Notice(text)] *)
Definition Notice (text : string) : Js World unit :=
  modify (fun w =>
    mkWorld (textQueue w) (reasoningQueue w) (cleanedUp w) (subscribed w)
            (sessions w) (sent w) (aborts w) (destroys w)
            (notices w ++ [text]) (console w)).

(** [console.warn(text, ...)] and [console.error(text, ...)] *)
Definition console_log (text : string) : Js World unit :=
  modify (fun w =>
    mkWorld (textQueue w) (reasoningQueue w) (cleanedUp w) (subscribed w)
            (sessions w) (sent w) (aborts w) (destroys w)
            (notices w) (console w ++ [text])).

Definition set_cleanedUp (b : bool) : Js World unit :=
  modify (fun w =>
    mkWorld (textQueue w) (reasoningQueue w) b (subscribed w)
            (sessions w) (sent w) (aborts w) (destroys w) (notices w) (console w)).

Definition set_subscribed (b : bool) : Js World unit :=
  modify (fun w =>
    mkWorld (textQueue w) (reasoningQueue w) (cleanedUp w) b
            (sessions w) (sent w) (aborts w) (destroys w) (notices w) (console w)).

(** [await client.createSession({...})]: a fresh session, which has
    received no call yet. *)
Definition createSession (B : Backend) : Js World unit :=
  match createSession_throws B with
  | Some t => throw t
  | None =>
      modify (fun w =>
        mkWorld (textQueue w) (reasoningQueue w) (cleanedUp w) (subscribed w)
                (S (sessions w)) [] 0 0 (notices w) (console w))
  end.

(** [await session.destroy()] *)
Definition session_destroy (B : Backend) : Js World unit :=
  modify (fun w =>
    mkWorld (textQueue w) (reasoningQueue w) (cleanedUp w) (subscribed w)
            (sessions w) (sent w) (aborts w) (S (destroys w))
            (notices w) (console w)) ;;
  match destroy_throws B with
  | Some t => throw t
  | None => ret tt
  end.

(** [session.abort()]: the call returns a promise, which is not awaited. *)
Definition session_abort : Js World unit :=
  modify (fun w =>
    mkWorld (textQueue w) (reasoningQueue w) (cleanedUp w) (subscribed w)
            (sessions w) (sent w) (S (aborts w)) (destroys w)
            (notices w) (console w)).

Definition record_sent (prompt : string) : Js World unit :=
  modify (fun w =>
    mkWorld (textQueue w) (reasoningQueue w) (cleanedUp w) (subscribed w)
            (sessions w) (sent w ++ [prompt]) (aborts w) (destroys w)
            (notices w) (console w)).

(** ** copilot_sdk_streaming *)

(** The closure [performCleanup].  Everything up to and including the call
    of [session.destroy()] happens before the function first suspends, so
    the flag is already set when a second caller arrives. *)
Definition performCleanup (B : Backend) : Js World unit :=
  fun w =>
    if cleanedUp w then ret tt w
    else
      (set_cleanedUp true ;;
       set_subscribed false ;;
       try_catch (session_destroy B)
                 (fun _ => console_log "Error destroying Copilot session:")) w.

(** [event.data && typeof event.data.deltaContent === 'string'] *)
Definition delta_of (ev : Event.t) : option string :=
  match Event.data ev with
  | Some d => Event.deltaContent d
  | None => None
  end.

(** [event.data?.message] *)
Definition message_of (ev : Event.t) : option string :=
  match Event.data ev with
  | Some d => Event.message d
  | None => None
  end.

(** The callback passed to [session.on]. *)
Definition handler (B : Backend) (event : option Event.t) : Js World unit :=
  match event with
  | None => console_log "Received invalid event from Copilot session:"
  | Some ev =>
      match Event.type ev with
      | None => console_log "Received invalid event from Copilot session:"
      | Some type =>
          if (type =? "assistant.message_delta")%string then
            match delta_of ev with
            | Some deltaContent => on_textQueue (push deltaContent)
            | None => ret tt
            end
          else if (type =? "assistant.reasoning_delta")%string then
            match delta_of ev with
            | Some deltaContent => on_reasoningQueue (push deltaContent)
            | None => ret tt
            end
          else if (type =? "session.error")%string then
            let errorMessage := or_default (message_of ev) "Unknown error" in
            let error := mkError ("Copilot streaming error: " ++ errorMessage) in
            on_textQueue (fail error) ;;
            on_reasoningQueue (fail error) ;;
            console_log "Copilot session error:" ;;
            Notice ("Copilot error: " ++ errorMessage) ;;
            try_catch (performCleanup B)
                      (fun _ => console_log "Error during cleanup after session error:")
          else if (type =? "session.idle")%string then
            on_textQueue complete ;;
            on_reasoningQueue complete
          else ret tt
      end
  end.

(** Whether the handler takes its [session.error] case. *)
Definition is_session_error (event : option Event.t) : bool :=
  match event with
  | Some ev =>
      match Event.type ev with
      | Some type => (type =? "session.error")%string
      | None => false
      end
  | None => false
  end.

(** The session delivering one event: the callback runs as long as it has
    not been unsubscribed. *)
Definition emit (B : Backend) (event : option Event.t) : Js World unit :=
  fun w => if subscribed w then handler B event w else ret tt w.

Fixpoint emit_all (B : Backend) (events : list (option Event.t)) : Js World unit :=
  match events with
  | [] => ret tt
  | event :: rest => emit B event ;; emit_all B rest
  end.

(** [await session.send({ prompt })]: events may be delivered while the
    caller is suspended. *)
Definition session_send (B : Backend) (prompt : string) : Js World unit :=
  record_sent prompt ;;
  emit_all B (send_events B) ;;
  match send_throws B with
  | Some t => throw t
  | None => ret tt
  end.

(** The controls of [CopilotStreamResult]; [textStream], [reasoningStream]
    and [session] are the objects held in [World]. *)
Record CopilotStreamResult : Type := mkStream {
  abort : Js World unit;
  cleanup : Js World unit
}.

(** The [abort] closure of the returned object. *)
Definition abort_control : Js World unit :=
  session_abort ;;
  on_textQueue complete ;;
  on_reasoningQueue complete.

Definition copilot_sdk_streaming (B : Backend) (model : string)
  (conversation : list Message.t) (systemMessage : option string)
  : Js World CopilotStreamResult :=
  Notice "Calling GitHub Copilot" ;;
  validatedConversation <- ConversationSchema_parse conversation ;;
  match lastUserMessage validatedConversation with
  | None => throw (ThrowError (mkError "No user message found in conversation"))
  | Some lastUser =>
      createSession B ;;
      on_textQueue (fun _ => create default_maxSize) ;;
      on_reasoningQueue (fun _ => create default_maxSize) ;;
      set_cleanedUp false ;;
      set_subscribed true ;;
      try_catch (session_send B (Message.content lastUser))
        (fun err =>
           let error := as_error err in
           on_textQueue (fail error) ;;
           on_reasoningQueue (fail error) ;;
           performCleanup B ;;
           throw (ThrowError error)) ;;
      ret (mkStream abort_control (performCleanup B))
  end.

(** What can happen once the call has returned: the session emits an event,
    the caller uses a control, or a consumer pulls from a stream. *)
Inductive Action : Type :=
| Emit (event : option Event.t)
| CallAbort
| CallCleanup
| PullText
| PullReasoning.

Definition act (B : Backend) (r : CopilotStreamResult) (a : Action) : Js World unit :=
  match a with
  | Emit event => emit B event
  | CallAbort => abort r
  | CallCleanup => cleanup r
  | PullText => on_textQueue (fun q => snd (next q))
  | PullReasoning => on_reasoningQueue (fun q => snd (next q))
  end.

Definition after (B : Backend) (r : CopilotStreamResult) (acts : list Action)
  (w : World) : World :=
  fold_left (fun w a => snd (act B r a w)) acts w.

(** What holds of the session between any two steps: the handler is
    registered exactly until teardown, and [destroy] has run once if
    teardown has begun and not at all otherwise. *)
Definition tidy (w : World) : Prop :=
  subscribed w = negb (cleanedUp w)
  /\ destroys w = (if cleanedUp w then 1 else 0).

(** The conversation is accepted and a session is obtained for it. *)
Definition starts (B : Backend) (conversation : list Message.t) : bool :=
  forallb MessageSchema conversation
  && match lastUserMessage conversation with Some _ => true | None => false end
  && match createSession_throws B with None => true | Some _ => false end.

(** ** copilot_sdk_completion *)

(** [await session.sendAndWait({ prompt })] *)
Definition session_sendAndWait (B : Backend) (prompt : string)
  : Js World (option Response.t) :=
  record_sent prompt ;;
  fun w => (sendAndWait_result B, w).

Definition copilot_sdk_completion (B : Backend) (model : string)
  (conversation : list Message.t) (systemMessage : option string)
  : Js World string :=
  Notice "Calling GitHub Copilot" ;;
  validatedConversation <- ConversationSchema_parse conversation ;;
  match lastUserMessage validatedConversation with
  | None => throw (ThrowError (mkError "No user message found in conversation"))
  | Some lastUser =>
      createSession B ;;
      try_finally
        (response <- session_sendAndWait B (Message.content lastUser) ;;
         let content := or_default (response_content response) "" in
         ret content)
        (try_catch (session_destroy B)
                   (fun _ => console_log "Error destroying Copilot session:"))
  end.

(** ** ai_sdk_structured *)

Inductive eligible_provider : Type :=
| google | openai | anthropic | groq | ollama | openrouter | custom
| perplexity | github_copilot.

Definition provider_string (p : eligible_provider) : string :=
  match p with
  | google => "google"
  | openai => "openai"
  | anthropic => "anthropic"
  | groq => "groq"
  | ollama => "ollama"
  | openrouter => "openrouter"
  | custom => "custom"
  | perplexity => "perplexity"
  | github_copilot => "github-copilot"
  end.

(** [c.toUpperCase()] on an ASCII character. *)
Definition toUpperCase (c : Ascii.ascii) : Ascii.ascii :=
  let n := Ascii.nat_of_ascii c in
  if (97 <=? n) && (n <=? 122) then Ascii.ascii_of_nat (n - 32) else c.

(** [s[0].toUpperCase() + s.slice(1)] *)
Definition capitalize (s : string) : string :=
  match s with
  | EmptyString => EmptyString
  | String c rest => String (toUpperCase c) rest
  end.

(** The JavaScript values that flow through structured generation. *)
#[local] Unset Elimination Schemes.
Inductive JsVal : Type :=
| JUndefined
| JString (s : string)
| JNumber (z : Z)
| JObject (fields : list (string * JsVal)).
#[local] Set Elimination Schemes.

(** [v[name]] *)
Definition js_get (name : string) (v : JsVal) : JsVal :=
  match v with
  | JObject fields =>
      match find (fun kv => (fst kv =? name)%string) fields with
      | Some kv => snd kv
      | None => JUndefined
      end
  | _ => JUndefined
  end.

(** A schema is what it accepts. *)
Definition Schema : Type := JsVal -> bool.

Section Structured.

(** The model handles of the provider packages are opaque. *)
Variable LanguageModel : Type.

(** A provider is callable, [provider(model)]; the OpenRouter one has a
    [chat] method instead. *)
Record sdk_provider : Type := mkProvider {
  call : string -> LanguageModel;
  chat : string -> LanguageModel
}.

(** The options object handed to [generateObject]. *)
Record GenerateObjectOptions : Type := mkOptions {
  opt_model : LanguageModel;
  opt_schema : Schema;
  opt_messages : list Message.t;
  opt_temperature : Z;
  opt_mode : option string
}.

(** [generateObject] of the external [ai] package. *)
Variable generateObject : GenerateObjectOptions -> Js World JsVal.

Definition ai_sdk_structured (provider : sdk_provider) (model : string)
  (conversation : list Message.t) (temperature : Z)
  (provider_name : eligible_provider) (schema : Schema) : Js World JsVal :=
  Notice ("Calling " ++ capitalize (provider_string provider_name)) ;;
  validatedConversation <- ConversationSchema_parse conversation ;;
  match provider_name with
  | openrouter =>
      response <- generateObject
                    (mkOptions (chat provider model) schema
                               validatedConversation temperature (Some "json"%string)) ;;
      ret response
  | _ =>
      response <- generateObject
                    (mkOptions (call provider model) schema
                               validatedConversation temperature None) ;;
      ret (js_get "object" response)
  end.

End Structured.

(** The contract of [generateObject]: the value the backend generated is
    checked against the schema; a conforming value is returned in the
    [object] field of a result that also carries the finish reason, a
    non-conforming one makes the call throw. *)
Definition generateObject_contract {LanguageModel : Type}
  (backend : LanguageModel -> JsVal)
  (o : GenerateObjectOptions LanguageModel) : Js World JsVal :=
  let value := backend (opt_model o) in
  if opt_schema o value
  then ret (JObject [("object"%string, value);
                     ("finishReason"%string, JString "stop")])
  else throw (ThrowError (mkError "No object generated: response did not match schema.")).

(** [z.string()] *)
Definition z_string : Schema :=
  fun v => match v with JString _ => true | _ => false end.

(** ** Sample inputs *)

Definition sample_conversation : list Message.t :=
  [Message.mk "user" "hi"].

(** A backend on which every call succeeds and no event is emitted while
    [send] is awaited. *)
Definition quiet_backend : Backend :=
  mkBackend None [] None (Returned None) None.

Definition delta_event (text : string) : option Event.t :=
  Some (Event.mk (Some "assistant.message_delta"%string)
                 (Some (Event.mkData (Some text) None))).

Definition error_event (text : string) : option Event.t :=
  Some (Event.mk (Some "session.error"%string)
                 (Some (Event.mkData None (Some text)))).

Definition idle_event : option Event.t :=
  Some (Event.mk (Some "session.idle"%string) None).

(** A backend whose [send] throws a non-[Error] value after one delta. *)
Definition failing_send_backend : Backend :=
  mkBackend None [delta_event "He"] (Some (ThrowOther "socket closed")) 
            (Returned None) None.

(** A backend whose [sendAndWait] resolves to a payload without [data] and
    whose [destroy] throws. *)
Definition empty_reply_backend : Backend :=
  mkBackend None [] None (Returned (Some (Response.mk None)))
            (Some (ThrowOther "gone")).

(** A provider whose model handles are the model names, and a backend that
    generates the string [hello] for every model. *)
Definition sample_provider : sdk_provider string :=
  mkProvider (fun model => model) (fun model => model).

Definition hello_backend (handle : string) : JsVal := JString "hello".

(** ** Histories of queue calls and what consumers get out of them *)

Section Histories.
Context {T : Type}.
Implicit Type q : AsyncEventQueue.t T.

(** A history run with the promise of every [next] call kept, in call
    order. *)
Fixpoint trace (ops : list (Op T)) q : list (NextPromise T) * AsyncEventQueue.t T :=
  match ops with
  | [] => ([], q)
  | OpNext :: ops' =>
      let (r, q1) := next q in
      let (rs, q2) := trace ops' q1 in
      (r :: rs, q2)
  | o :: ops' => trace ops' (step q o)
  end.

(** The values a history pushes, in push order. *)
Definition pushed (ops : list (Op T)) : list T :=
  flat_map (fun o => match o with OpPush v => [v] | _ => [] end) ops.

(** A history made of [push] and [next] calls only. *)
Definition only_push_next (ops : list (Op T)) : bool :=
  forallb (fun o => match o with OpPush _ | OpNext => true | _ => false end) ops.

(** How a pending promise was settled, if it was: the first entry the
    settlement log holds for it. *)
Definition settlement_of (log : list (PromiseId * Settlement T)) (p : PromiseId)
  : option (Settlement T) :=
  match find (fun entry => fst entry =? p) log with
  | Some entry => Some (snd entry)
  | None => None
  end.

(** What the consumer holding promise [r] has received by the time the log
    is [log]; [None] while it is still waiting. *)
Definition outcome (log : list (PromiseId * Settlement T)) (r : NextPromise T)
  : option (Settlement T) :=
  match r with
  | Settled s => Some s
  | Pending p => settlement_of log p
  end.

(** Every promise the queue knows of: the settled ones, then the pending
    ones. *)
Definition known_promises q : list PromiseId :=
  map fst (settled q) ++ resolvers q.

(** A promise that [next] returned already resolved with a value. *)
Definition hands_value (r : NextPromise T) : bool :=
  match r with
  | Settled (Resolve (IterValue _)) => true
  | _ => false
  end.

End Histories.

(** ** Streams of deltas *)

Definition reasoning_event (text : string) : option Event.t :=
  Some (Event.mk (Some "assistant.reasoning_delta"%string)
                 (Some (Event.mkData (Some text) None))).

(** What a session emits while it generates: text and reasoning deltas. *)
Inductive Chunk : Type :=
| TextChunk (text : string)
| ReasoningChunk (text : string).

Definition chunk_event (c : Chunk) : option Event.t :=
  match c with
  | TextChunk text => delta_event text
  | ReasoningChunk text => reasoning_event text
  end.

Definition texts (cs : list Chunk) : list string :=
  flat_map (fun c => match c with TextChunk text => [text] | _ => [] end) cs.

Definition reasonings (cs : list Chunk) : list string :=
  flat_map (fun c => match c with ReasoningChunk text => [text] | _ => [] end) cs.

(** An action that is neither an explicit cleanup nor the delivery of a
    [session.error] event. *)
Definition no_teardown_trigger (a : Action) : bool :=
  match a with
  | CallCleanup => false
  | Emit event => negb (is_session_error event)
  | _ => true
  end.

(** ** Provider selection *)

Definition refactored_providers : list string :=
  ["openai"; "google"; "anthropic"; "groq"; "ollama"; "openrouter"; "custom";
   "perplexity"; "github-copilot"]%string.

(** [refactored_providers.includes(provider)] *)
Definition isEligibleProvider (provider : string) : bool :=
  existsb (String.eqb provider) refactored_providers.

Module Plugin.

(** An entry of [settings.custom_endpoints]. *)
Record CustomEndpoint : Type := mkEndpoint {
  endpoint : string;
  api_key : string
}.

(** The fields of the plugin that [get_provider] reads or writes.
    [custom_endpoints] is a plain object used as a map from model names;
    the list holds its own properties. *)
Record t (Client : Type) : Type := mk {
  openai_client : Client;
  google_client : Client;
  anthropic_client : Client;
  groq_client : Client;
  ollama_client : Client;
  openrouter_client : Client;
  perplexity_client : Client;
  copilot_client : Client;
  custom_client : Client;
  settings_model : string;
  settings_custom_endpoints : list (string * CustomEndpoint)
}.

End Plugin.

(** [object[key]] on an object used as a map: [None] stands for
    [undefined]. *)
Definition js_lookup {V : Type} (key : string) (object : list (string * V))
  : option V :=
  match find (fun kv => (fst kv =? key)%string) object with
  | Some kv => Some (snd kv)
  | None => None
  end.

(** The names a plain object inherits from [Object.prototype]; what they
    hold is a function, or for [__proto__] the prototype itself. *)
Definition object_prototype_members : list string :=
  ["constructor"; "hasOwnProperty"; "isPrototypeOf"; "propertyIsEnumerable";
   "toLocaleString"; "toString"; "valueOf"; "__proto__"; "__defineGetter__";
   "__defineSetter__"; "__lookupGetter__"; "__lookupSetter__"]%string.

(** What reading [object[key]] on a plain object finds: an own property,
    a member inherited through the prototype chain, or [undefined]. *)
Inductive Property (V : Type) : Type :=
| OwnProperty (value : V)
| InheritedProperty
| NoProperty.
Arguments InheritedProperty {V}.
Arguments NoProperty {V}.

(** [object[key]] *)
Definition js_property {V : Type} (key : string) (object : list (string * V))
  : Property V :=
  match js_lookup key object with
  | Some value => OwnProperty value
  | None =>
      if existsb (String.eqb key) object_prototype_members
      then InheritedProperty
      else NoProperty
  end.

Section Providers.

Variable Client : Type.

(** [createOpenAICompatible({ baseURL, apiKey, name })]; [None] stands for
    an [undefined] option. *)
Variable createOpenAICompatible : option string -> option string -> string -> Client.

Definition set_custom_client (client : Client) (plugin : Plugin.t Client)
  : Plugin.t Client :=
  Plugin.mk (Plugin.openai_client plugin) (Plugin.google_client plugin)
            (Plugin.anthropic_client plugin) (Plugin.groq_client plugin)
            (Plugin.ollama_client plugin) (Plugin.openrouter_client plugin)
            (Plugin.perplexity_client plugin) (Plugin.copilot_client plugin)
            client (Plugin.settings_model plugin)
            (Plugin.settings_custom_endpoints plugin).

Definition get_provider (provider : string) : Js (Plugin.t Client) Client :=
  fun plugin =>
    if (provider =? "openai")%string then ret (Plugin.openai_client plugin) plugin
    else if (provider =? "google")%string then ret (Plugin.google_client plugin) plugin
    else if (provider =? "anthropic")%string then ret (Plugin.anthropic_client plugin) plugin
    else if (provider =? "groq")%string then ret (Plugin.groq_client plugin) plugin
    else if (provider =? "ollama")%string then ret (Plugin.ollama_client plugin) plugin
    else if (provider =? "openrouter")%string then ret (Plugin.openrouter_client plugin) plugin
    else if (provider =? "perplexity")%string then ret (Plugin.perplexity_client plugin) plugin
    else if (provider =? "github-copilot")%string then ret (Plugin.copilot_client plugin) plugin
    else if (provider =? "custom")%string then
      let current_model := Plugin.settings_model plugin in
      let store := fun sdk_provider =>
        (modify (set_custom_client sdk_provider) ;;
         fun plugin' => ret (Plugin.custom_client plugin') plugin') plugin in
      match js_property current_model (Plugin.settings_custom_endpoints plugin) with
      | NoProperty =>
          (* [!custom_endpoint]: only [undefined] is falsy here *)
          throw (ThrowError
                   (mkError ("No custom endpoint configuration found for model: "
                             ++ current_model))) plugin
      | OwnProperty custom_endpoint =>
          store (createOpenAICompatible (Some (Plugin.endpoint custom_endpoint))
                                        (Some (Plugin.api_key custom_endpoint))
                                        provider)
      | InheritedProperty =>
          (* an inherited member is truthy and has neither [endpoint] nor
             [api_key] *)
          store (createOpenAICompatible None None provider)
      end
    else
      throw (ThrowError
               (mkError ("Invalid provider: " ++ provider ++ ". Must be one of: "
                         ++ String.concat ", " refactored_providers))) plugin.

End Providers.

(** ** ai_sdk_streaming and ai_sdk_completion *)

Module ErrorEvent.

(** An entry of [error.errors]; [statusCode] is [None] when the field is
    missing. *)
Record StatusError : Type := mkStatus { statusCode : option Z }.

(** [event.error] as an object; [errors] is [None] when the field is
    missing. *)
Record Failure : Type := mkFailure { errors : option (list StatusError) }.

(** The argument of [onError]; [error] is [None] when it is [undefined] or
    [null]. *)
Record t : Type := mk { error : option Failure }.

End ErrorEvent.

(** What reading a property of [undefined] throws. *)
Definition TypeError : JsError := mkError "TypeError".

(** [errors?.some((e) => e.statusCode === 429)] *)
Definition some_rate_limited (errors : option (list ErrorEvent.StatusError)) : bool :=
  match errors with
  | Some l =>
      existsb (fun e => match ErrorEvent.statusCode e with
                        | Some code => (code =? 429)%Z
                        | None => false
                        end) l
  | None => false
  end.

(** The closure [handleError] of [ai_sdk_streaming]. *)
Definition handleError (provider_name : eligible_provider) (event : ErrorEvent.t)
  : Js World unit :=
  match ErrorEvent.error event with
  | None => throw (ThrowError TypeError)
  | Some typedError =>
      if some_rate_limited (ErrorEvent.errors typedError) then
        console_log "Rate limit exceeded error" ;;
        Notice ("Rate limit exceeded for " ++ provider_string provider_name ++ " API")
      else
        Notice ("Unknown error during " ++ provider_string provider_name ++ " streaming")
  end.

Section TextGeneration.

Variable LanguageModel : Type.

(** The options object handed to [streamText]. *)
Record StreamTextOptions : Type := mkStreamOptions {
  stream_model : LanguageModel;
  stream_messages : list Message.t;
  stream_temperature : Z;
  stream_onError : ErrorEvent.t -> Js World unit
}.

(** The options object handed to [generateText]. *)
Record GenerateTextOptions : Type := mkTextOptions {
  text_model : LanguageModel;
  text_messages : list Message.t;
  text_temperature : Z
}.

(** [streamText] and [generateText] of the external [ai] package; the
    result of the latter is kept by its [text] field. *)
Variable StreamTextResult : Type.
Variable streamText : StreamTextOptions -> Js World StreamTextResult.
Variable generateText : GenerateTextOptions -> Js World string.

Definition ai_sdk_streaming (provider : sdk_provider LanguageModel)
  (model : string) (conversation : list Message.t) (temperature : Z)
  (provider_name : eligible_provider) : Js World StreamTextResult :=
  Notice ("Calling " ++ capitalize (provider_string provider_name)) ;;
  validatedConversation <- ConversationSchema_parse conversation ;;
  match provider_name with
  | openrouter =>
      streamText (mkStreamOptions (chat provider model) validatedConversation
                                  temperature (handleError provider_name))
  | _ =>
      stream <- streamText (mkStreamOptions (call provider model)
                              validatedConversation temperature
                              (handleError provider_name)) ;;
      ret stream
  end.

Definition ai_sdk_completion (provider : sdk_provider LanguageModel)
  (model : string) (conversation : list Message.t) (temperature : Z)
  (provider_name : eligible_provider) : Js World string :=
  Notice ("Calling " ++ capitalize (provider_string provider_name)) ;;
  validatedConversation <- ConversationSchema_parse conversation ;;
  match provider_name with
  | openrouter =>
      text <- generateText (mkTextOptions (chat provider model)
                              validatedConversation temperature) ;;
      ret text
  | _ =>
      text <- generateText (mkTextOptions (call provider model)
                              validatedConversation temperature) ;;
      ret text
  end.

End TextGeneration.

(** ** The settings tab *)

(** [s.endsWith(suffix)] *)
Definition endsWith (s suffix : string) : bool :=
  let n := String.length s in
  let k := String.length suffix in
  (k <=? n) && (substring (n - k) k s =? suffix)%string.

(** What the chat-folder setting touches: the stored folder, the calls of
    [saveSettings] and [loadSettings], and the notices shown. *)
Record ChatTab : Type := mkChatTab {
  chat_logs_folder : string;
  saved : nat;
  loaded : nat;
  shown : list string
}.

(** The callback wrapped by [debounce] in [chat_settings_tab], as run on
    one typed value; a string is read as its sequence of code units, one
    per character.  [loadSettings] reads back what [saveSettings] wrote. *)
Definition debouncedSave (value : string) (tab : ChatTab) : ChatTab :=
  if String.length value <=? 1 then
    mkChatTab (chat_logs_folder tab) (saved tab) (loaded tab)
              (shown tab ++ ["The folder path must be longer than one character."%string])
  else if endsWith value "/" then
    mkChatTab (chat_logs_folder tab) (saved tab) (loaded tab)
              (shown tab ++ ["The folder path must not end with a trailing slash."%string])
  else if negb (value =? chat_logs_folder tab)%string then
    mkChatTab value (S (saved tab)) (S (loaded tab)) (shown tab)
  else tab.

(** A folder path the callback accepts. *)
Definition acceptable_folder (path : string) : bool :=
  (1 <? String.length path) && negb (endsWith path "/").

Section ModelOptions.

(** The fields of a model entry other than [streaming]. *)
Variable Details : Type.

Record ModelEntry : Type := mkModel {
  streaming : bool;
  details : Details
}.

(** [models[key].streaming = value] on an entry that exists. *)
Fixpoint set_streaming (key : string) (value : bool)
  (models : list (string * ModelEntry)) : list (string * ModelEntry) :=
  match models with
  | [] => []
  | (k, m) :: rest =>
      if (k =? key)%string then (k, mkModel value (details m)) :: rest
      else (k, m) :: set_streaming key value rest
  end.

(** The loop of the constructor of [CaretSettingTab] over
    [Object.entries(default_llm_providers.anthropic)]. *)
Fixpoint sync_streaming (defaults : list (string * ModelEntry))
  (current : list (string * ModelEntry)) : list (string * ModelEntry) :=
  match defaults with
  | [] => current
  | (modelKey, modelValue) :: rest =>
      sync_streaming rest
        (match js_lookup modelKey current with
         | Some _ => set_streaming modelKey (streaming modelValue) current
         | None => current
         end)
  end.

(** The two provider tables the constructor looks at, and the calls of
    [saveSettings]. *)
Record ProviderTables : Type := mkTables {
  default_anthropic : list (string * ModelEntry);
  current_anthropic : option (list (string * ModelEntry));
  settings_saved : nat
}.

(** The body of the constructor after [this.plugin = plugin]. *)
Definition CaretSettingTab_constructor (tables : ProviderTables) : ProviderTables :=
  match current_anthropic tables with
  | Some current =>
      mkTables (default_anthropic tables)
               (Some (sync_streaming (default_anthropic tables) current))
               (S (settings_saved tables))
  | None => tables
  end.

End ModelOptions.

(** * Properties *)

(** ** The queue on its own *)

Section QueueFacts.
Context {T : Type}.
Implicit Type q : AsyncEventQueue.t T.

Lemma push_buffers v q :
  idle q ->
  push v q =
    if (Z.of_nat (length (queue q)) >=? maxSize q)%Z
    then mk (tl (queue q) ++ [v]) [] (rejecters q) false (error q)
            (maxSize q) (promises q) (settled q) (S (warnings q))
    else mk (queue q ++ [v]) [] (rejecters q) false (error q)
            (maxSize q) (promises q) (settled q) (warnings q).
Proof.
  intros [Hd Hr]. unfold push. rewrite Hd, Hr. reflexivity.
Qed.

Lemma push_idle v q : idle q -> idle (push v q).
Proof.
  intros H. rewrite (push_buffers v H).
  destruct (Z.of_nat (length (queue q)) >=? maxSize q)%Z; split; reflexivity.
Qed.

Lemma push_maxSize v q : maxSize (push v q) = maxSize q.
Proof.
  unfold push. destruct (done q); [reflexivity|].
  destruct (resolvers q); [|reflexivity].
  destruct (Z.of_nat (length (queue q)) >=? maxSize q)%Z; reflexivity.
Qed.

Lemma pushes_snoc vs v q : pushes (vs ++ [v]) q = push v (pushes vs q).
Proof. unfold pushes. rewrite fold_left_app. reflexivity. Qed.

Lemma pushes_idle vs q : idle q -> idle (pushes vs q).
Proof.
  revert q. induction vs as [|v vs IH]; intros q H; [exact H|].
  apply IH, push_idle, H.
Qed.

Lemma pushes_maxSize vs q : maxSize (pushes vs q) = maxSize q.
Proof.
  revert q. induction vs as [|v vs IH]; intros q; [reflexivity|].
  cbn. fold (pushes vs (push v q)). rewrite IH. apply push_maxSize.
Qed.

(** Pushes that fit are appended to the buffer and touch nothing else. *)
Lemma pushes_fit vs q :
  idle q ->
  (Z.of_nat (length (queue q) + length vs) <= maxSize q)%Z ->
  pushes vs q =
    mk (queue q ++ vs) [] (rejecters q) false (error q) (maxSize q)
       (promises q) (settled q) (warnings q).
Proof.
  revert q. induction vs as [|v vs IH]; intros q H Hfit.
  - destruct H as [Hd Hr]. destruct q; cbn in *. subst.
    rewrite app_nil_r. reflexivity.
  - cbn. fold (pushes vs (push v q)).
    assert (Hlt : (Z.of_nat (length (queue q)) >=? maxSize q)%Z = false).
    { rewrite Z.geb_leb. apply Z.leb_gt. cbn [length] in Hfit. lia. }
    rewrite IH.
    + rewrite (push_buffers v H), Hlt. cbn. rewrite <- app_assoc. reflexivity.
    + apply push_idle, H.
    + rewrite (push_buffers v H), Hlt. cbn [queue maxSize].
      rewrite length_app. cbn [length] in *. lia.
Qed.

Lemma pull_n_succ n q :
  pull_n (S n) q =
    (fst (next q) :: fst (pull_n n (snd (next q))),
     snd (pull_n n (snd (next q)))).
Proof.
  cbn [pull_n]. destruct (next q) as [r q1]. cbn [fst snd].
  destruct (pull_n n q1); reflexivity.
Qed.

Lemma pull_n_drains q :
  fst (pull_n (S (length (queue q))) q) = delivered (queue q) ++ [at_empty q].
Proof.
  destruct q as [buf rs rj d e C p s w]. cbn [queue].
  induction buf as [|v buf IH].
  - unfold at_empty. cbn. destruct e; [reflexivity|]. destruct d; reflexivity.
  - cbn [length]. rewrite pull_n_succ. cbn -[pull_n] in *.
    rewrite IH. reflexivity.
Qed.

Lemma pull_until_done_drains fuel q :
  length (queue q) < fuel ->
  fst (pull_until_done fuel q) = delivered (queue q) ++ [at_empty q].
Proof.
  destruct q as [buf rs rj d e C p s w]. cbn [queue].
  revert fuel. induction buf as [|v buf IH]; intros fuel Hf.
  - destruct fuel as [|fuel]; [cbn in Hf; lia|].
    unfold at_empty. cbn. destruct e; [reflexivity|]. destruct d; reflexivity.
  - destruct fuel as [|fuel]; [cbn in Hf; lia|].
    cbn [length] in Hf. cbn -[pull_until_done].
    change (pull_until_done (S fuel) ?q) with
      (let (r, q1) := next q in
       match r with
       | Settled (Resolve (IterValue _)) =>
           let (rs, q2) := pull_until_done fuel q1 in (r :: rs, q2)
       | _ => ([r], q1)
       end).
    cbn -[pull_until_done].
    destruct (pull_until_done fuel (mk buf rs rj d e C p s w)) as [rs0 q2] eqn:E.
    cbn [fst delivered map app].
    specialize (IH fuel ltac:(lia)). rewrite E in IH. cbn [fst] in IH.
    rewrite IH. reflexivity.
Qed.

(** *** The two loops *)

Lemma complete_loop_spec rs rj (log : list (PromiseId * Settlement T)) :
  complete_loop rs rj log =
    ([], skipn (length rs) rj,
     log ++ map (fun r => (r, Resolve IterDone)) rs).
Proof.
  revert rj log. induction rs as [|r rs IH]; intros rj log; cbn.
  - rewrite app_nil_r. reflexivity.
  - rewrite IH, <- app_assoc. destruct rj; cbn; [rewrite skipn_nil|]; reflexivity.
Qed.

Lemma fail_loop_spec e rj rs (log : list (PromiseId * Settlement T)) :
  fail_loop e rj rs log =
    (skipn (length rj) rs, [],
     log ++ map (fun r => (r, Reject e)) rj).
Proof.
  revert rs log. induction rj as [|r rj IH]; intros rs log; cbn.
  - rewrite app_nil_r. reflexivity.
  - rewrite IH, <- app_assoc. destruct rs; cbn; [rewrite skipn_nil|]; reflexivity.
Qed.

Lemma complete_spec q :
  complete q =
    mk (queue q) [] (skipn (length (resolvers q)) (rejecters q)) true
       (error q) (maxSize q) (promises q)
       (settled q ++ map (fun r => (r, Resolve IterDone)) (resolvers q))
       (warnings q).
Proof. unfold complete. rewrite complete_loop_spec. reflexivity. Qed.

Lemma fail_spec e q :
  fail e q =
    mk (queue q) (skipn (length (rejecters q)) (resolvers q)) [] true
       (Some e) (maxSize q) (promises q)
       (settled q ++ map (fun r => (r, Reject e)) (rejecters q))
       (warnings q).
Proof. unfold fail. rewrite fail_loop_spec. reflexivity. Qed.

(** *** Reachable states *)

Lemma consistent_create C : consistent (create (T:=T) C).
Proof. split; [reflexivity|discriminate]. Qed.

Lemma consistent_step q o : consistent q -> consistent (step q o).
Proof.
  intros H. pose proof H as [Hp Hd]. destruct o as [v| |e|]; cbn [step].
  - unfold push. destruct (done q) eqn:D; [exact H|].
    destruct (resolvers q) as [|r rs] eqn:R.
    + destruct (Z.of_nat (length (queue q)) >=? maxSize q)%Z;
        split; cbn; congruence.
    + split; cbn; [rewrite Hp; reflexivity|congruence].
  - rewrite complete_spec. split; cbn; [|reflexivity].
    rewrite Hp. apply skipn_all.
  - rewrite fail_spec. split; cbn.
    + rewrite Hp. symmetry. apply skipn_all.
    + intros _. rewrite Hp. apply skipn_all.
  - unfold next. destruct (queue q); [|split; assumption].
    destruct (error q); [exact H|].
    destruct (done q) eqn:D; [exact H|].
    split; cbn; [rewrite Hp; reflexivity|congruence].
Qed.

Lemma consistent_run ops q : consistent q -> consistent (run ops q).
Proof.
  revert q. induction ops as [|o ops IH]; intros q H; [exact H|].
  apply IH, consistent_step, H.
Qed.

(** On a closed queue [complete] finds nobody to resolve. *)
Lemma complete_closed q :
  consistent q -> done q = true -> complete q = q.
Proof.
  intros [Hp Hd] D. rewrite complete_spec.
  specialize (Hd D). destruct q; cbn in *. subst.
  cbn. rewrite app_nil_r. reflexivity.
Qed.

(** On a closed queue [fail] only stores its argument. *)
Lemma fail_closed e q :
  consistent q -> done q = true ->
  fail e q =
    mk (queue q) (resolvers q) (rejecters q) (done q) (Some e) (maxSize q)
       (promises q) (settled q) (warnings q).
Proof.
  intros [Hp Hd] D. rewrite fail_spec.
  specialize (Hd D). destruct q; cbn in *. subst.
  cbn. rewrite app_nil_r. reflexivity.
Qed.

(** A closed queue ignores [push]. *)
Lemma push_closed v q : done q = true -> push v q = q.
Proof. intros D. unfold push. rewrite D. reflexivity. Qed.

(** A closed queue with nobody waiting ignores [complete]. *)
Lemma complete_settled q :
  done q = true -> resolvers q = [] -> complete q = q.
Proof.
  intros D R. rewrite complete_spec. destruct q; cbn in *. subst.
  cbn. rewrite app_nil_r. reflexivity.
Qed.

(** *** Histories of pushes *)

Lemma most_recent_snoc k (vs : list T) v :
  most_recent (S k) (vs ++ [v]) = most_recent k vs ++ [v].
Proof.
  unfold most_recent. rewrite length_app. cbn [length].
  replace (length vs + 1 - S k) with (length vs - k) by lia.
  rewrite skipn_app.
  replace (length vs - k - length vs) with 0 by lia.
  reflexivity.
Qed.

Lemma most_recent_length k (vs : list T) :
  length (most_recent k vs) = Nat.min k (length vs).
Proof. unfold most_recent. rewrite length_skipn. lia. Qed.

Lemma most_recent_all k (vs : list T) :
  length vs <= k -> most_recent k vs = vs.
Proof.
  intros H. unfold most_recent.
  replace (length vs - k) with 0 by lia. reflexivity.
Qed.

Lemma most_recent_tail k (vs : list T) :
  k < length vs -> tl (most_recent (S k) vs) = most_recent k vs.
Proof.
  intros H. unfold most_recent.
  replace (length vs - k) with (S (length vs - S k)) by lia.
  rewrite <- (Nat.add_1_l (length vs - S k)), <- skipn_skipn.
  destruct (skipn (length vs - S k) vs); reflexivity.
Qed.

Lemma most_recent_newest k (old vs : list T) :
  k <= length vs -> most_recent k (old ++ vs) = most_recent k vs.
Proof.
  intros H. unfold most_recent. rewrite length_app, skipn_app.
  rewrite skipn_all2 by lia. cbn [app]. f_equal. lia.
Qed.

(** On an idle queue of capacity at least one, the buffer after a history
    of pushes is the most recent [maxSize] values of what was buffered
    followed by that history. *)
Lemma pushes_retains (C : nat) (vs : list T) q :
  1 <= C ->
  idle q -> maxSize q = Z.of_nat C -> length (queue q) <= C ->
  queue (pushes vs q) = most_recent C (queue q ++ vs).
Proof.
  intros HC Hi Hm Hb. induction vs as [|v vs IH] using rev_ind.
  - rewrite app_nil_r, most_recent_all by exact Hb. reflexivity.
  - rewrite pushes_snoc.
    rewrite (push_buffers v (pushes_idle vs Hi)), pushes_maxSize, IH, Hm.
    rewrite most_recent_length, app_assoc.
    destruct C as [|k]; [lia|].
    rewrite most_recent_snoc.
    destruct (Z.of_nat (Nat.min (S k) (length (queue q ++ vs))) >=? Z.of_nat (S k))%Z
      eqn:E; cbn [queue].
    + rewrite Z.geb_leb in E. apply Z.leb_le in E.
      rewrite most_recent_tail by lia. reflexivity.
    + rewrite Z.geb_leb in E. apply Z.leb_gt in E.
      rewrite !most_recent_all by lia. reflexivity.
Qed.

End QueueFacts.

Section QueueClaims.
Context {T : Type}.
Implicit Type q : AsyncEventQueue.t T.

Lemma pull_n_values q :
  fst (pull_n (length (queue q)) q) = delivered (queue q).
Proof.
  destruct q as [buf rs rj d e C p s w]. cbn [queue].
  induction buf as [|v buf IH]; [reflexivity|].
  cbn [length]. rewrite pull_n_succ. cbn -[pull_n] in *.
  rewrite IH. reflexivity.
Qed.

Lemma most_recent_twice k n (vs : list T) :
  k <= Nat.min n (length vs) ->
  most_recent k (most_recent n vs) = most_recent k vs.
Proof.
  intros H. unfold most_recent at 1 3.
  rewrite most_recent_length. unfold most_recent.
  rewrite skipn_skipn. f_equal. lia.
Qed.

(** C1. Take a queue that is open, has nobody waiting on it and nothing
    buffered, push values that fit in its buffer, and call [complete()].
    A consumer pulling until the end of the sequence then observes the
    pushed values in push order followed by a single end-of-sequence
    result: any budget of pulls larger than the number of values yields
    exactly that observation, and so do exactly [length vs + 1] successive
    calls of [next]. *)
Theorem push_then_complete_observed q0 (vs : list T) (fuel : nat) :
  idle q0 -> queue q0 = [] -> error q0 = None ->
  (Z.of_nat (length vs) <= maxSize q0)%Z ->
  length vs < fuel ->
  let q := complete (pushes vs q0) in
  fst (pull_until_done fuel q) = delivered vs ++ [Settled (Resolve IterDone)]
  /\ fst (pull_n (S (length vs)) q) = delivered vs ++ [Settled (Resolve IterDone)].
Proof.
  intros Hi Hb He Hfit Hfuel q.
  assert (Hq : queue q = vs /\ at_empty q = Settled (Resolve IterDone)).
  { unfold q. rewrite complete_spec, pushes_fit by (rewrite ?Hb; assumption).
    unfold at_empty. cbn. rewrite Hb, He. split; reflexivity. }
  destruct Hq as [Hq Hend]. split.
  - rewrite pull_until_done_drains by (rewrite Hq; exact Hfuel).
    rewrite Hq, Hend. reflexivity.
  - rewrite <- Hq at 1. rewrite pull_n_drains, Hq, Hend. reflexivity.
Qed.

(** C2. Take a queue that is open, has nobody waiting on it and nothing
    buffered, push [N] values that fit in its buffer, and call [fail(e)]
    before any pull.  The buffer still holds the [N] values, the first [N]
    pulls hand them out in push order, and pull [N+1] rejects with [e]
    itself.  In whatever state it is called, [fail] leaves the buffer
    alone. *)
Theorem push_then_fail_observed q0 (vs : list T) (e : JsError) :
  idle q0 -> queue q0 = [] ->
  (Z.of_nat (length vs) <= maxSize q0)%Z ->
  let q := fail e (pushes vs q0) in
  queue q = vs
  /\ fst (pull_n (length vs) q) = delivered vs
  /\ fst (pull_n (S (length vs)) q) = delivered vs ++ [Settled (Reject e)]
  /\ (forall q', queue (fail e q') = queue q').
Proof.
  intros Hi Hb Hfit q.
  assert (Hq : queue q = vs /\ at_empty q = Settled (Reject e)).
  { unfold q. rewrite fail_spec, pushes_fit by (rewrite ?Hb; assumption).
    unfold at_empty. cbn. rewrite Hb. split; reflexivity. }
  destruct Hq as [Hq Hend]. split; [exact Hq|]. split; [|split].
  - rewrite <- Hq at 1. rewrite pull_n_values, Hq. reflexivity.
  - rewrite <- Hq at 1. rewrite pull_n_drains, Hq, Hend. reflexivity.
  - intros q'. rewrite fail_spec. reflexivity.
Qed.

(** C3, as the code has it.  On a queue that any history of calls has
    closed, [complete()] changes nothing at all, and [fail(e)] settles no
    promise and changes no field but [error], which it overwrites with
    [e]; so a repeated [fail(e)] is without effect when the queue had
    already failed with that same [e].  Both are total: neither throws. *)
Theorem closed_queue_complete_and_fail (C : Z) (ops : list (Op T)) (e : JsError) :
  let q := run ops (create C) in
  done q = true ->
  complete q = q
  /\ fail e q = mk (queue q) (resolvers q) (rejecters q) (done q) (Some e)
                   (maxSize q) (promises q) (settled q) (warnings q)
  /\ (error q = Some e -> fail e q = q).
Proof.
  intros q D.
  assert (H : consistent q) by apply consistent_run, consistent_create.
  split; [apply complete_closed; assumption|].
  split; [apply fail_closed; assumption|].
  intros E. rewrite fail_closed by assumption.
  destruct q; cbn in *. subst. reflexivity.
Qed.

(** C4.  A capacity is a number of values to keep, at least one (the
    program creates its queues with the default, 1000).  Take a queue of
    capacity [C >= 1] that is open, has nobody waiting on it and holds at
    most [C] values, and push any sequence of values.  The buffer then holds at
    most [C] values, namely the [C] most recent of what was buffered
    followed by what was pushed; so for every [k] up to the buffer's
    length and the number of pushes, its [k] newest values are the [k]
    most recently pushed.  A push that finds the buffer full drops its
    oldest value and appends the new one, and warns.  [push] is a total
    function: the producer always gets control back. *)
Theorem pushes_keep_most_recent q0 (vs : list T) :
  idle q0 ->
  (1 <= maxSize q0)%Z ->
  (Z.of_nat (length (queue q0)) <= maxSize q0)%Z ->
  let C := maxSize q0 in
  let q := pushes vs q0 in
  (Z.of_nat (length (queue q)) <= C)%Z
  /\ queue q = most_recent (Z.to_nat C) (queue q0 ++ vs)
  /\ (forall k, k <= length (queue q) -> k <= length vs ->
                most_recent k (queue q) = most_recent k vs)
  /\ (forall v, (Z.of_nat (length (queue q)) >=? C)%Z = true ->
                queue (push v q) = tl (queue q) ++ [v]
                /\ warnings (push v q) = S (warnings q)).
Proof.
  intros Hi HC Hb C q.
  assert (Hq : queue q = most_recent (Z.to_nat C) (queue q0 ++ vs)).
  { apply pushes_retains; unfold C; try assumption; lia. }
  assert (Hiq : idle q) by (apply pushes_idle, Hi).
  assert (Hm : maxSize q = C) by apply pushes_maxSize.
  split; [|split; [exact Hq|split]].
  - rewrite Hq, most_recent_length. lia.
  - intros k Hk Hv. rewrite Hq in *. rewrite most_recent_length in Hk.
    rewrite most_recent_twice by exact Hk.
    apply most_recent_newest, Hv.
  - intros v Hfull. rewrite (push_buffers v Hiq), Hm, Hfull.
    split; reflexivity.
Qed.

End QueueClaims.

Lemma push_then_complete_observed_witness :
  fst (pull_until_done 4
         (complete (pushes ["He"; "llo"; "!"]%string (create default_maxSize))))
  = delivered ["He"; "llo"; "!"]%string ++ [Settled (Resolve IterDone)].
Proof.
  apply (@push_then_complete_observed string (create default_maxSize)
           ["He"; "llo"; "!"]%string 4).
  - split; reflexivity.
  - reflexivity.
  - reflexivity.
  - vm_compute. discriminate.
  - cbn. lia.
Defined.

Lemma push_then_fail_observed_witness :
  fst (pull_n 3 (fail (mkError "rate limited")
                      (pushes ["He"; "llo"]%string (create 2))))
  = delivered ["He"; "llo"]%string ++ [Settled (Reject (mkError "rate limited"))].
Proof.
  apply (@push_then_fail_observed string (create 2) ["He"; "llo"]%string
           (mkError "rate limited")).
  - split; reflexivity.
  - reflexivity.
  - vm_compute. discriminate.
Defined.

Lemma closed_queue_complete_and_fail_witness :
  let q := run [OpPush "a"%string; OpNext; OpNext; OpFail (mkError "x")]
               (create 1000) in
  done q = true /\ complete q = q /\ fail (mkError "x") q = q.
Proof.
  intros q. split; [reflexivity|].
  destruct (@closed_queue_complete_and_fail string 1000
              [OpPush "a"%string; OpNext; OpNext; OpFail (mkError "x")]
              (mkError "x") eq_refl) as [Hc [_ Hf]].
  split; [exact Hc|apply Hf; reflexivity].
Defined.

(** C3 as stated fails: after [complete()] a pull yields the end of the
    sequence, but once [fail] is called on that closed queue the same pull
    rejects; and a second [fail] replaces the error of the first. *)
Lemma fail_on_closed_queue_is_observed :
  let late := mkError "late" in
  let q := complete (create (T:=string) 1000) in
  fst (next q) = Settled (Resolve IterDone)
  /\ fst (next (fail late q)) = Settled (Reject late)
  /\ fst (next (fail (mkError "first") q)) = Settled (Reject (mkError "first"))
  /\ fst (next (fail late (fail (mkError "first") q))) = Settled (Reject late).
Proof. repeat split. Qed.

Lemma pushes_keep_most_recent_witness :
  queue (pushes ["a"; "b"; "c"]%string (create 2)) = ["b"; "c"]%string.
Proof.
  apply (@pushes_keep_most_recent string (create 2) ["a"; "b"; "c"]%string).
  - split; reflexivity.
  - vm_compute. discriminate.
  - vm_compute. discriminate.
Defined.

(** A capacity the program never uses: with [maxSize] 0 a push finds
    [0 >= 0], shifts the empty buffer, warns of a drop that removed
    nothing, and appends, so one value is buffered. *)
Lemma capacity_zero_buffers_one :
  let q := push "a"%string (create 0) in
  queue q = ["a"%string]
  /\ (Z.of_nat (length (queue q)) > maxSize q)%Z.
Proof. split; [reflexivity|cbn; lia]. Qed.

(** ** The Copilot session *)

Section SessionFacts.
Variable B : Backend.

#[local] Arguments push : simpl never.
#[local] Arguments complete : simpl never.
#[local] Arguments fail : simpl never.
#[local] Arguments next : simpl never.
#[local] Arguments create : simpl never.

Ltac js_unfold :=
  unfold session_destroy, session_abort, record_sent,
    set_cleanedUp, set_subscribed, console_log, Notice, on_textQueue,
    on_reasoningQueue, createSession, try_catch, try_finally, bind,
    modify, ret, throw in *.

Lemma performCleanup_returns w : fst (performCleanup B w) = Returned tt.
Proof.
  unfold performCleanup. js_unfold. destruct (cleanedUp w); [reflexivity|].
  cbn. destruct (destroy_throws B); reflexivity.
Qed.

Lemma performCleanup_first w :
  cleanedUp w = false ->
  snd (performCleanup B w) =
    mkWorld (textQueue w) (reasoningQueue w) true false (sessions w) (sent w)
            (aborts w) (S (destroys w)) (notices w)
            (match destroy_throws B with
             | Some _ => console w ++ ["Error destroying Copilot session:"%string]
             | None => console w
             end).
Proof.
  intros H. unfold performCleanup. js_unfold. rewrite H. cbn.
  destruct (destroy_throws B); reflexivity.
Qed.

Lemma performCleanup_again w :
  cleanedUp w = true -> snd (performCleanup B w) = w.
Proof. intros H. unfold performCleanup. js_unfold. rewrite H. reflexivity. Qed.

Lemma performCleanup_tidy w :
  tidy w ->
  tidy (snd (performCleanup B w)) /\ cleanedUp (snd (performCleanup B w)) = true.
Proof.
  intros [Hs Hd]. destruct (cleanedUp w) eqn:E.
  - rewrite performCleanup_again by exact E.
    repeat split; [rewrite E; exact Hs|rewrite E; exact Hd|exact E].
  - rewrite performCleanup_first by exact E.
    repeat split; cbn. rewrite Hd. reflexivity.
Qed.

Lemma performCleanup_queues w :
  textQueue (snd (performCleanup B w)) = textQueue w
  /\ reasoningQueue (snd (performCleanup B w)) = reasoningQueue w.
Proof.
  destruct (cleanedUp w) eqn:E.
  - rewrite performCleanup_again by exact E. split; reflexivity.
  - rewrite performCleanup_first by exact E. split; reflexivity.
Qed.

(** The [session.error] case of the handler, run on [w]. *)
Lemma handler_session_error ev w :
  Event.type ev = Some "session.error"%string ->
  let errorMessage := or_default (message_of ev) "Unknown error" in
  let error := mkError ("Copilot streaming error: " ++ errorMessage) in
  handler B (Some ev) w =
    (Returned tt,
     snd (performCleanup B
            (mkWorld (fail error (textQueue w)) (fail error (reasoningQueue w))
                     (cleanedUp w) (subscribed w) (sessions w) (sent w)
                     (aborts w) (destroys w)
                     (notices w ++ [("Copilot error: " ++ errorMessage)%string])
                     (console w ++ ["Copilot session error:"%string])))).
Proof.
  intros H errorMessage error. unfold handler. rewrite H.
  cbn [String.eqb Ascii.eqb Bool.eqb].
  fold errorMessage. fold error.
  unfold try_catch, bind, on_textQueue, on_reasoningQueue, console_log,
    Notice, modify. cbn [textQueue reasoningQueue cleanedUp subscribed sessions
    sent aborts destroys notices console].
  match goal with
  | |- match performCleanup B ?x with _ => _ end = _ =>
      pose proof (performCleanup_returns x) as R;
      destruct (performCleanup B x) as [r w']
  end.
  cbn in R. subst r. reflexivity.
Qed.

(** Every other case leaves the session alone and does at most one
    [push] or one [complete] on each queue. *)
Lemma handler_other event w :
  is_session_error event = false ->
  let w' := snd (handler B event w) in
  fst (handler B event w) = Returned tt
  /\ cleanedUp w' = cleanedUp w /\ subscribed w' = subscribed w
  /\ destroys w' = destroys w
  /\ (textQueue w' = textQueue w
      \/ textQueue w' = complete (textQueue w)
      \/ exists v, textQueue w' = push v (textQueue w))
  /\ (reasoningQueue w' = reasoningQueue w
      \/ reasoningQueue w' = complete (reasoningQueue w)
      \/ exists v, reasoningQueue w' = push v (reasoningQueue w)).
Proof.
  intros H. unfold handler. destruct event as [ev|]; cbn in H.
  2: { cbn. repeat split; auto. }
  destruct (Event.type ev) as [type|].
  2: { cbn. repeat split; auto. }
  destruct (type =? "assistant.message_delta")%string.
  { destruct (delta_of ev); cbn; repeat split; eauto. }
  destruct (type =? "assistant.reasoning_delta")%string.
  { destruct (delta_of ev); cbn; repeat split; eauto. }
  rewrite H.
  destruct (type =? "session.idle")%string; cbn; repeat split; auto.
Qed.

Lemma is_session_error_true event :
  is_session_error event = true ->
  exists ev, event = Some ev /\ Event.type ev = Some "session.error"%string.
Proof.
  destruct event as [ev|]; cbn; [|discriminate].
  destruct (Event.type ev) as [type|] eqn:E; [|discriminate].
  intros H. apply String.eqb_eq in H. subst. eauto.
Qed.

Lemma handler_returns event w : fst (handler B event w) = Returned tt.
Proof.
  destruct (is_session_error event) eqn:E.
  - apply is_session_error_true in E as [ev [-> Hty]].
    rewrite handler_session_error by exact Hty. reflexivity.
  - apply handler_other, E.
Qed.

Lemma handler_tidy event w : tidy w -> tidy (snd (handler B event w)).
Proof.
  intros Ht. destruct (is_session_error event) eqn:E.
  - apply is_session_error_true in E as [ev [-> Hty]].
    rewrite handler_session_error by exact Hty. cbn [snd].
    apply performCleanup_tidy. exact Ht.
  - destruct (handler_other event w E) as (_ & Hc & Hs & Hd & _).
    unfold tidy. rewrite Hc, Hs, Hd. exact Ht.
Qed.

Lemma handler_cleanedUp event w :
  cleanedUp w = true -> cleanedUp (snd (handler B event w)) = true.
Proof.
  intros Hc. destruct (is_session_error event) eqn:E.
  - apply is_session_error_true in E as [ev [-> Hty]].
    rewrite handler_session_error by exact Hty. cbn [snd].
    rewrite performCleanup_again; assumption.
  - destruct (handler_other event w E) as (_ & H & _). congruence.
Qed.

Lemma emit_returns event w : fst (emit B event w) = Returned tt.
Proof.
  unfold emit. destruct (subscribed w); [apply handler_returns|reflexivity].
Qed.

Lemma emit_tidy event w : tidy w -> tidy (snd (emit B event w)).
Proof.
  unfold emit. destruct (subscribed w); [apply handler_tidy|intros H; exact H].
Qed.

Lemma emit_cleanedUp event w :
  cleanedUp w = true -> cleanedUp (snd (emit B event w)) = true.
Proof.
  unfold emit. destruct (subscribed w); [apply handler_cleanedUp|intros H; exact H].
Qed.

Lemma emit_all_spec events w :
  emit_all B events w =
    (Returned tt, fold_left (fun w ev => snd (emit B ev w)) events w).
Proof.
  revert w. induction events as [|ev events IH]; intros w; [reflexivity|].
  cbn [emit_all fold_left]. unfold bind.
  pose proof (emit_returns ev w) as R.
  destruct (emit B ev w) as [r w1]. cbn in R. subst r. cbn [snd]. apply IH.
Qed.

Lemma emit_all_tidy events w : tidy w -> tidy (snd (emit_all B events w)).
Proof.
  rewrite emit_all_spec. cbn [snd]. revert w.
  induction events as [|ev events IH]; intros w H; [exact H|].
  apply IH, emit_tidy, H.
Qed.

(** The world in which [session.send] is called. *)
Lemma streaming_runs model conversation systemMessage w0 :
  starts B conversation = true ->
  exists lastUser,
    lastUserMessage conversation = Some lastUser
    /\ copilot_sdk_streaming B model conversation systemMessage w0 =
       let w1 :=
         mkWorld (create default_maxSize) (create default_maxSize) false true
                 (S (sessions w0)) [Message.content lastUser] 0 0
                 (notices w0 ++ ["Calling GitHub Copilot"%string]) (console w0) in
       let w2 := snd (emit_all B (send_events B) w1) in
       match send_throws B with
       | None =>
           (Returned (mkStream abort_control (performCleanup B)), w2)
       | Some t =>
           (Threw (ThrowError (as_error t)),
            snd (performCleanup B
                   (mkWorld (fail (as_error t) (textQueue w2))
                            (fail (as_error t) (reasoningQueue w2))
                            (cleanedUp w2) (subscribed w2) (sessions w2)
                            (sent w2) (aborts w2) (destroys w2)
                            (notices w2) (console w2))))
       end.
Proof.
  unfold starts. intros H.
  apply andb_prop in H as [H Hc]. apply andb_prop in H as [Hv Hu].
  destruct (lastUserMessage conversation) as [lastUser|] eqn:L; [|discriminate].
  destruct (createSession_throws B) eqn:Cs; [discriminate|].
  exists lastUser. split; [reflexivity|].
  unfold copilot_sdk_streaming, ConversationSchema_parse, session_send.
  rewrite Hv. js_unfold. cbn. rewrite L, Cs. cbn.
  rewrite !emit_all_spec. cbn [snd fst].
  destruct (send_throws B) as [t|]; [|reflexivity].
  match goal with
  | |- context [performCleanup B ?x] =>
      pose proof (performCleanup_returns x) as R;
      destruct (performCleanup B x) as [r w']
  end.
  cbn in R. subst r. reflexivity.
Qed.

Lemma streaming_starts model conversation systemMessage w0 r :
  fst (copilot_sdk_streaming B model conversation systemMessage w0) = Returned r ->
  starts B conversation = true.
Proof.
  unfold starts, copilot_sdk_streaming, ConversationSchema_parse.
  destruct (forallb MessageSchema conversation); [|discriminate].
  js_unfold. cbn.
  destruct (lastUserMessage conversation); [|discriminate].
  destruct (createSession_throws B); [discriminate|reflexivity].
Qed.

Lemma streaming_returned model conversation systemMessage w0 r w1 :
  copilot_sdk_streaming B model conversation systemMessage w0 = (Returned r, w1) ->
  r = mkStream abort_control (performCleanup B) /\ tidy w1.
Proof.
  intros H.
  assert (Hs : starts B conversation = true).
  { apply (streaming_starts model conversation systemMessage w0 (r:=r)).
    rewrite H. reflexivity. }
  destruct (streaming_runs model conversation systemMessage w0 Hs)
    as (lastUser & _ & E).
  rewrite E in H. cbv zeta in H.
  destruct (send_throws B); [discriminate|].
  injection H as <- <-. split; [reflexivity|].
  apply emit_all_tidy. split; reflexivity.
Qed.

Lemma abort_control_spec w :
  abort_control w =
    (Returned tt,
     mkWorld (complete (textQueue w)) (complete (reasoningQueue w))
             (cleanedUp w) (subscribed w) (sessions w) (sent w)
             (S (aborts w)) (destroys w) (notices w) (console w)).
Proof. reflexivity. Qed.

Let stream := mkStream abort_control (performCleanup B).

Lemma act_tidy a w : tidy w -> tidy (snd (act B stream a w)).
Proof.
  intros H. destruct a; cbn [act stream abort cleanup].
  - apply emit_tidy, H.
  - exact H.
  - apply performCleanup_tidy, H.
  - exact H.
  - exact H.
Qed.

Lemma act_cleanedUp a w :
  cleanedUp w = true -> cleanedUp (snd (act B stream a w)) = true.
Proof.
  intros H. destruct a; cbn [act stream abort cleanup].
  - apply emit_cleanedUp, H.
  - exact H.
  - rewrite performCleanup_again; exact H.
  - exact H.
  - exact H.
Qed.

Lemma after_tidy acts w : tidy w -> tidy (after B stream acts w).
Proof.
  revert w. induction acts as [|a acts IH]; intros w H; [exact H|].
  apply IH, act_tidy, H.
Qed.

Lemma after_cleanedUp acts w :
  cleanedUp w = true -> cleanedUp (after B stream acts w) = true.
Proof.
  revert w. induction acts as [|a acts IH]; intros w H; [exact H|].
  apply IH, act_cleanedUp, H.
Qed.

Lemma performCleanup_cleanedUp w : cleanedUp (snd (performCleanup B w)) = true.
Proof.
  destruct (cleanedUp w) eqn:E.
  - rewrite performCleanup_again; exact E.
  - rewrite performCleanup_first by exact E. reflexivity.
Qed.

Lemma after_cleanup_called acts w :
  In CallCleanup acts -> cleanedUp (after B stream acts w) = true.
Proof.
  revert w. induction acts as [|a acts IH]; intros w H; [destruct H|].
  destruct H as [->|H].
  - change (after B stream (CallCleanup :: acts) w)
      with (after B stream acts (snd (performCleanup B w))).
    apply after_cleanedUp, performCleanup_cleanedUp.
  - apply IH, H.
Qed.

(** After a queue is closed and its waiters are gone, the cases of the
    handler other than [session.error] leave it as it is. *)
Lemma emit_other_closed event w :
  is_session_error event = false ->
  done (textQueue w) = true -> resolvers (textQueue w) = [] ->
  done (reasoningQueue w) = true -> resolvers (reasoningQueue w) = [] ->
  textQueue (snd (emit B event w)) = textQueue w
  /\ reasoningQueue (snd (emit B event w)) = reasoningQueue w.
Proof.
  intros E Dt Rt Dr Rr. unfold emit.
  destruct (subscribed w); [|split; reflexivity].
  destruct (handler_other event w E) as (_ & _ & _ & _ & Ht & Hr).
  split.
  - destruct Ht as [Ht|[Ht|[v Ht]]]; rewrite Ht;
      [reflexivity|apply complete_settled; assumption|apply push_closed; assumption].
  - destruct Hr as [Hr|[Hr|[v Hr]]]; rewrite Hr;
      [reflexivity|apply complete_settled; assumption|apply push_closed; assumption].
Qed.

Lemma emit_all_other_closed events w :
  forallb (fun ev => negb (is_session_error ev)) events = true ->
  done (textQueue w) = true -> resolvers (textQueue w) = [] ->
  done (reasoningQueue w) = true -> resolvers (reasoningQueue w) = [] ->
  textQueue (snd (emit_all B events w)) = textQueue w
  /\ reasoningQueue (snd (emit_all B events w)) = reasoningQueue w.
Proof.
  rewrite emit_all_spec. cbn [snd]. revert w.
  induction events as [|ev events IH]; intros w H Dt Rt Dr Rr;
    [split; reflexivity|].
  cbn [forallb] in H. apply andb_prop in H as [Hev H].
  apply negb_true_iff in Hev.
  destruct (emit_other_closed ev w Hev Dt Rt Dr Rr) as [Et Er].
  cbn [fold_left].
  destruct (IH (snd (emit B ev w)) H) as [It Ir]; try congruence.
  split; congruence.
Qed.

(** C6, as the code has it.  Whatever happened since the call returned,
    the [abort] control returns normally, tells the session to abort and
    completes both queues: each is closed, every consumer that was
    waiting on it is resolved with the end of the sequence, and its error
    field is untouched, so a queue that had not failed hands out what is
    left in its buffer and then the end of the sequence.  Events emitted
    afterwards whose type is not [session.error] (deltas, idle, unknown
    or malformed events) leave both queues exactly as [abort] left
    them. *)
Theorem abort_completes_both_queues
  model conversation systemMessage w0 r w1 acts events :
  copilot_sdk_streaming B model conversation systemMessage w0 = (Returned r, w1) ->
  forallb (fun ev => negb (is_session_error ev)) events = true ->
  let w := after B r acts w1 in
  let wa := snd (abort r w) in
  let wl := snd (emit_all B events wa) in
  fst (abort r w) = Returned tt
  /\ aborts wa = S (aborts w)
  /\ (done (textQueue wa) = true
      /\ resolvers (textQueue wa) = []
      /\ error (textQueue wa) = error (textQueue w)
      /\ settled (textQueue wa) =
           settled (textQueue w)
           ++ map (fun p => (p, Resolve IterDone)) (resolvers (textQueue w))
      /\ (error (textQueue w) = None ->
          forall fuel, length (queue (textQueue w)) < fuel ->
            fst (pull_until_done fuel (textQueue wa)) =
              delivered (queue (textQueue w)) ++ [Settled (Resolve IterDone)]))
  /\ (done (reasoningQueue wa) = true
      /\ resolvers (reasoningQueue wa) = []
      /\ error (reasoningQueue wa) = error (reasoningQueue w)
      /\ settled (reasoningQueue wa) =
           settled (reasoningQueue w)
           ++ map (fun p => (p, Resolve IterDone)) (resolvers (reasoningQueue w))
      /\ (error (reasoningQueue w) = None ->
          forall fuel, length (queue (reasoningQueue w)) < fuel ->
            fst (pull_until_done fuel (reasoningQueue wa)) =
              delivered (queue (reasoningQueue w)) ++ [Settled (Resolve IterDone)]))
  /\ textQueue wl = textQueue wa
  /\ reasoningQueue wl = reasoningQueue wa.
Proof.
  intros Hrun Hev w wa wl.
  apply streaming_returned in Hrun as [-> _].
  assert (Ea : abort stream w = abort_control w) by reflexivity.
  fold stream in w, wa. unfold wl, wa. clear wl wa.
  rewrite Ea, abort_control_spec. cbn [fst snd].
  assert (Hq : forall q : AsyncEventQueue.t string,
             done (complete q) = true
             /\ resolvers (complete q) = []
             /\ error (complete q) = error q
             /\ settled (complete q) =
                  settled q ++ map (fun p => (p, Resolve IterDone)) (resolvers q)
             /\ (error q = None ->
                 forall fuel, length (queue q) < fuel ->
                   fst (pull_until_done fuel (complete q)) =
                     delivered (queue q) ++ [Settled (Resolve IterDone)])).
  { intros q. rewrite complete_spec. cbn.
    repeat split. intros E fuel Hf.
    rewrite pull_until_done_drains by exact Hf.
    unfold at_empty. cbn. rewrite E. reflexivity. }
  split; [reflexivity|]. split; [reflexivity|].
  split; [apply Hq|]. split; [apply Hq|].
  apply emit_all_other_closed; cbn; try apply Hq. exact Hev.
Qed.

(** C7. On an event of type [session.error] the handler returns
    normally, having failed both queues with one error whose message is
    [Copilot streaming error: ] followed by the message the backend
    reported (or [Unknown error] when it reported none): every consumer
    waiting on either queue has been rejected with that error and the
    next pull on an emptied buffer rejects with it.  Teardown has been
    triggered: the one-shot flag is set, and if it was not set before,
    the handler has been unsubscribed and [session.destroy] called.  The
    error does not come out of [copilot_sdk_streaming] itself: whenever
    the conversation is accepted, a session is obtained and [send] does
    not throw, the call returns its stream object, whatever events the
    session emitted in the meantime. *)
Theorem session_error_fails_both_queues ev w :
  Event.type ev = Some "session.error"%string ->
  let errorMessage := or_default (message_of ev) "Unknown error" in
  let err := mkError ("Copilot streaming error: " ++ errorMessage) in
  let w' := snd (handler B (Some ev) w) in
  fst (handler B (Some ev) w) = Returned tt
  /\ (forall m, message_of ev = Some m -> m <> ""%string ->
                message err = ("Copilot streaming error: " ++ m)%string)
  /\ (error (textQueue w') = Some err
      /\ done (textQueue w') = true
      /\ rejecters (textQueue w') = []
      /\ settled (textQueue w') =
           settled (textQueue w)
           ++ map (fun p => (p, Reject err)) (rejecters (textQueue w))
      /\ at_empty (textQueue w') = Settled (Reject err))
  /\ (error (reasoningQueue w') = Some err
      /\ done (reasoningQueue w') = true
      /\ rejecters (reasoningQueue w') = []
      /\ settled (reasoningQueue w') =
           settled (reasoningQueue w)
           ++ map (fun p => (p, Reject err)) (rejecters (reasoningQueue w))
      /\ at_empty (reasoningQueue w') = Settled (Reject err))
  /\ cleanedUp w' = true
  /\ (cleanedUp w = false ->
      subscribed w' = false /\ destroys w' = S (destroys w))
  /\ (forall model conversation systemMessage w0,
        starts B conversation = true -> send_throws B = None ->
        fst (copilot_sdk_streaming B model conversation systemMessage w0)
        = Returned (mkStream abort_control (performCleanup B))).
Proof.
  intros Hty errorMessage err w'.
  pose proof (handler_session_error ev w Hty) as H. cbv zeta in H.
  fold errorMessage in H. fold err in H.
  unfold w'. clear w'. rewrite H. cbn [fst snd]. clear H.
  set (wf := mkWorld (fail err (textQueue w)) (fail err (reasoningQueue w))
                     (cleanedUp w) (subscribed w) (sessions w) (sent w)
                     (aborts w) (destroys w) _ _).
  destruct (performCleanup_queues wf) as [Qt Qr].
  assert (Hq : forall q : AsyncEventQueue.t string,
             error (fail err q) = Some err
             /\ done (fail err q) = true
             /\ rejecters (fail err q) = []
             /\ settled (fail err q) =
                  settled q ++ map (fun p => (p, Reject err)) (rejecters q)
             /\ at_empty (fail err q) = Settled (Reject err)).
  { intros q. rewrite fail_spec. repeat split. }
  split; [reflexivity|].
  split.
  { intros m Hm Hne. unfold err, errorMessage. rewrite Hm. cbn.
    destruct (m =? "")%string eqn:E; [|reflexivity].
    apply String.eqb_eq in E. contradiction. }
  split; [rewrite Qt; apply Hq|].
  split; [rewrite Qr; apply Hq|].
  split; [apply performCleanup_cleanedUp|].
  split.
  { intros Hc. rewrite performCleanup_first by exact Hc. split; reflexivity. }
  intros model conversation systemMessage w0 Hs Hsend.
  destruct (streaming_runs model conversation systemMessage w0 Hs)
    as (lastUser & _ & E).
  rewrite E. cbv zeta. rewrite Hsend. reflexivity.
Qed.

Lemma dispatch_failure_preview model conversation systemMessage w0 t :
  starts B conversation = true ->
  send_throws B = Some t ->
  let out := copilot_sdk_streaming B model conversation systemMessage w0 in
  fst out = Threw (ThrowError (as_error t))
  /\ cleanedUp (snd out) = true
  /\ destroys (snd out) = 1.
Proof.
  intros Hs Hsend out.
  destruct (streaming_runs model conversation systemMessage w0 Hs)
    as (lastUser & _ & E).
  unfold out. clear out. rewrite E. cbv zeta. rewrite Hsend.
  cbn [fst snd].
  set (w2 := snd (emit_all B (send_events B) _)).
  assert (T2 : tidy w2) by (apply emit_all_tidy; split; reflexivity).
  match goal with
  | |- _ /\ cleanedUp (snd (performCleanup B ?x)) = true /\ _ =>
      assert (Tx : tidy x) by exact T2;
      destruct (performCleanup_tidy Tx) as [[_ Dx] Cx]
  end.
  rewrite Cx in Dx. repeat split; assumption.
Qed.

(** C8. When the conversation is accepted, a session is obtained and
    [session.send] throws [t], the call throws the error made of [t],
    and in the state it leaves behind both queues have failed with that
    error (closed, no consumer waiting, a pull on an emptied buffer
    rejects with it), the handler is unsubscribed and [session.destroy]
    has run exactly once.  No stream object is returned. *)
Theorem dispatch_failure_fails_both_queues
  model conversation systemMessage w0 t :
  starts B conversation = true ->
  send_throws B = Some t ->
  let err := as_error t in
  let out := copilot_sdk_streaming B model conversation systemMessage w0 in
  let w1 := snd out in
  fst out = Threw (ThrowError err)
  /\ (error (textQueue w1) = Some err
      /\ done (textQueue w1) = true
      /\ rejecters (textQueue w1) = []
      /\ at_empty (textQueue w1) = Settled (Reject err))
  /\ (error (reasoningQueue w1) = Some err
      /\ done (reasoningQueue w1) = true
      /\ rejecters (reasoningQueue w1) = []
      /\ at_empty (reasoningQueue w1) = Settled (Reject err))
  /\ cleanedUp w1 = true
  /\ subscribed w1 = false
  /\ destroys w1 = 1.
Proof.
  intros Hs Hsend err out w1.
  destruct (streaming_runs model conversation systemMessage w0 Hs)
    as (lastUser & _ & E).
  unfold w1, out. clear w1 out. rewrite E. cbv zeta. rewrite Hsend.
  cbn [fst snd]. fold err.
  set (w2 := snd (emit_all B (send_events B) _)).
  assert (T2 : tidy w2) by (apply emit_all_tidy; split; reflexivity).
  set (wf := mkWorld (fail err (textQueue w2)) (fail err (reasoningQueue w2))
                     (cleanedUp w2) (subscribed w2) (sessions w2) (sent w2)
                     (aborts w2) (destroys w2) (notices w2) (console w2)).
  assert (Tf : tidy wf) by exact T2.
  destruct (performCleanup_queues wf) as [Qt Qr].
  destruct (performCleanup_tidy Tf) as [[Ts Td] Tc].
  assert (Hq : forall q : AsyncEventQueue.t string,
             error (fail err q) = Some err
             /\ done (fail err q) = true
             /\ rejecters (fail err q) = []
             /\ at_empty (fail err q) = Settled (Reject err)).
  { intros q. rewrite fail_spec. repeat split. }
  split; [reflexivity|].
  split; [rewrite Qt; apply Hq|].
  split; [rewrite Qr; apply Hq|].
  split; [exact Tc|].
  rewrite Tc in Ts, Td. split; assumption.
Qed.

(** C9. Once the call has obtained its session, [session.destroy] runs
    at most once whatever happens: if [send] fails it has run exactly
    once when the call throws; if the call returns then, after any
    sequence of events, aborts, cleanups and pulls, it has run once if
    teardown was triggered and not at all otherwise.  It has run exactly
    once as soon as the caller has invoked [cleanup] at least once, it
    has run exactly once after a [session.error] event is handled, and
    one more [cleanup] always returns normally with the count at one.  A
    [destroy] that throws is caught: [cleanup] still returns normally
    and a line is written to the console. *)
Theorem teardown_destroys_once model conversation systemMessage w0 acts :
  starts B conversation = true ->
  match copilot_sdk_streaming B model conversation systemMessage w0 with
  | (Returned r, w1) =>
      let w2 := after B r acts w1 in
      destroys w2 = (if cleanedUp w2 then 1 else 0)
      /\ (In CallCleanup acts -> destroys w2 = 1)
      /\ (forall event, is_session_error event = true -> subscribed w2 = true ->
                        destroys (snd (emit B event w2)) = 1)
      /\ fst (cleanup r w2) = Returned tt
      /\ destroys (snd (cleanup r w2)) = 1
      /\ (forall t, destroy_throws B = Some t -> cleanedUp w2 = false ->
                    console (snd (cleanup r w2)) =
                      console w2 ++ ["Error destroying Copilot session:"%string])
  | (Threw _, w1) => cleanedUp w1 = true /\ destroys w1 = 1
  end.
Proof.
  intros Hs.
  destruct (send_throws B) as [t|] eqn:Hsend.
  - destruct (dispatch_failure_preview model conversation systemMessage w0 Hs Hsend)
      as (Ho & Hc & Hd).
    destruct (copilot_sdk_streaming B model conversation systemMessage w0)
      as [out w1]. cbn [fst snd] in *. subst out. split; assumption.
  - destruct (copilot_sdk_streaming B model conversation systemMessage w0)
      as [out w1] eqn:E.
    destruct out as [r|t].
    2: { destruct (streaming_runs model conversation systemMessage w0 Hs)
           as (lastUser & _ & E').
         rewrite E' in E. cbv zeta in E. rewrite Hsend in E. discriminate. }
    apply streaming_returned in E as [-> T1].
    fold stream. intros w2.
    assert (T2 : tidy w2) by (apply after_tidy, T1).
    change (cleanup stream w2) with (performCleanup B w2).
    destruct (performCleanup_tidy T2) as [[_ Td] Tc]. rewrite Tc in Td.
    split; [apply T2|].
    split.
    { intros Hin. destruct T2 as [_ T2]. rewrite T2.
      unfold w2. rewrite after_cleanup_called by exact Hin. reflexivity. }
    split.
    { intros event He Hsub. unfold emit. rewrite Hsub.
      apply is_session_error_true in He as (ev & -> & Hty).
      rewrite handler_session_error by exact Hty. cbn [snd].
      match goal with
      | |- destroys (snd (performCleanup B ?x)) = 1 =>
          assert (Tx : tidy x) by exact T2;
          destruct (performCleanup_tidy Tx) as [[_ Dx] Cx]
      end.
      rewrite Cx in Dx. exact Dx. }
    split; [apply performCleanup_returns|].
    split; [exact Td|].
    intros t Ht Hc. rewrite performCleanup_first by exact Hc.
    rewrite Ht. reflexivity.
Qed.

(** C10. Once [copilot_sdk_completion] has obtained its session, the
    session is destroyed exactly once whatever [sendAndWait] does, also
    when [destroy] itself throws.  When [sendAndWait] resolves, the call
    returns the content of the payload, or the empty string when the
    response is nullish, has no [data], or has no (or an empty)
    [content]; when [sendAndWait] throws, the call throws the same
    value. *)
Theorem completion_defaults_and_destroys
  model conversation systemMessage w0 :
  starts B conversation = true ->
  let out := copilot_sdk_completion B model conversation systemMessage w0 in
  destroys (snd out) = 1
  /\ (forall response,
        sendAndWait_result B = Returned response ->
        response_content response = None ->
        fst out = Returned ""%string)
  /\ (forall response,
        sendAndWait_result B = Returned response ->
        fst out = Returned (or_default (response_content response) ""))
  /\ (forall t, sendAndWait_result B = Threw t -> fst out = Threw t).
Proof.
  intros H out. unfold starts in H.
  apply andb_prop in H as [H Hc]. apply andb_prop in H as [Hv Hu].
  destruct (lastUserMessage conversation) as [lastUser|] eqn:L; [|discriminate].
  destruct (createSession_throws B) eqn:Cs; [discriminate|].
  unfold out, copilot_sdk_completion, ConversationSchema_parse,
    session_sendAndWait. clear out.
  rewrite Hv. js_unfold. cbn. rewrite L, Cs. cbn.
  destruct (sendAndWait_result B) as [response|t];
    destruct (destroy_throws B); cbn.
  all: repeat split; intros; try discriminate.
  all: match goal with
       | E : Returned _ = Returned _ |- _ => injection E as <-
       | E : Threw _ = Threw _ |- _ => injection E as <-
       | _ => idtac
       end.
  all: try match goal with
           | Hn : response_content _ = None |- _ => rewrite Hn
           end.
  all: reflexivity.
Qed.

End SessionFacts.

Lemma abort_completes_both_queues_witness :
  let B := quiet_backend in
  match copilot_sdk_streaming B "gpt-5" sample_conversation None world0 with
  | (Returned r, w1) =>
      let w := after B r [Emit (delta_event "He"); PullText] w1 in
      let wa := snd (abort r w) in
      done (textQueue wa) = true
      /\ textQueue (snd (emit_all B [delta_event "llo"; idle_event; None] wa))
         = textQueue wa
  | (Threw _, _) => False
  end.
Proof.
  intros B.
  destruct (copilot_sdk_streaming B "gpt-5" sample_conversation None world0)
    as [[r|t] w1] eqn:E.
  - destruct (@abort_completes_both_queues B "gpt-5"%string
                sample_conversation None world0 r w1
                [Emit (delta_event "He"); PullText]
                [delta_event "llo"; idle_event; None] E eq_refl)
      as (_ & _ & (Hd & _) & _ & Ht & _).
    split; [exact Hd|exact Ht].
  - vm_compute in E. discriminate E.
Defined.

(** C6 as stated fails: a [session.error] event emitted after [abort] is
    still handled.  Here one delta is consumed and [abort] is called; the
    next pull would yield the end of the sequence, but once the late error
    event has been handled the same pull rejects. *)
Lemma error_event_after_abort_is_observed :
  let B := quiet_backend in
  let r := mkStream abort_control (performCleanup B) in
  let w1 := snd (copilot_sdk_streaming B "gpt-5" sample_conversation None world0) in
  let w2 := after B r [Emit (delta_event "He"); PullText; CallAbort] w1 in
  let w3 := after B r [Emit (error_event "boom")] w2 in
  fst (copilot_sdk_streaming B "gpt-5" sample_conversation None world0) = Returned r
  /\ fst (next (textQueue w2)) = Settled (Resolve IterDone)
  /\ fst (next (textQueue w3))
     = Settled (Reject (mkError "Copilot streaming error: boom"))
  /\ fst (next (reasoningQueue w2)) = Settled (Resolve IterDone)
  /\ fst (next (reasoningQueue w3))
     = Settled (Reject (mkError "Copilot streaming error: boom")).
Proof. repeat split. Qed.

Lemma session_error_fails_both_queues_witness :
  let ev := Event.mk (Some "session.error"%string)
                     (Some (Event.mkData None (Some "rate limited"%string))) in
  let w' := snd (handler quiet_backend (Some ev) world0) in
  Event.type ev = Some "session.error"%string
  /\ error (textQueue w') = Some (mkError "Copilot streaming error: rate limited")
  /\ error (reasoningQueue w') = Some (mkError "Copilot streaming error: rate limited")
  /\ cleanedUp w' = true.
Proof.
  intros ev w'.
  destruct (@session_error_fails_both_queues quiet_backend ev world0 eq_refl)
    as (_ & _ & (Ht & _) & (Hr & _) & Hc & _).
  split; [reflexivity|]. split; [exact Ht|]. split; [exact Hr|exact Hc].
Defined.

Lemma dispatch_failure_fails_both_queues_witness :
  let out := copilot_sdk_streaming failing_send_backend "gpt-5"
               sample_conversation None world0 in
  starts failing_send_backend sample_conversation = true
  /\ fst out = Threw (ThrowError (mkError "socket closed"))
  /\ at_empty (textQueue (snd out)) = Settled (Reject (mkError "socket closed"))
  /\ destroys (snd out) = 1.
Proof.
  intros out.
  destruct (@dispatch_failure_fails_both_queues failing_send_backend
              "gpt-5"%string sample_conversation None world0
              (ThrowOther "socket closed") eq_refl eq_refl)
    as (Ho & (_ & _ & _ & Ht) & _ & _ & _ & Hd).
  split; [reflexivity|]. split; [exact Ho|]. split; [exact Ht|exact Hd].
Defined.

Lemma teardown_destroys_once_witness :
  let B := quiet_backend in
  starts B sample_conversation = true
  /\ match copilot_sdk_streaming B "gpt-5" sample_conversation None world0 with
     | (Returned r, w1) =>
         destroys (after B r [Emit (delta_event "He"); CallCleanup;
                              Emit (error_event "boom"); CallCleanup; CallAbort]
                         w1) = 1
     | (Threw _, w1) => destroys w1 = 1
     end.
Proof.
  intros B. split; [reflexivity|].
  pose proof (@teardown_destroys_once B "gpt-5"%string sample_conversation None
                world0 [Emit (delta_event "He"); CallCleanup;
                        Emit (error_event "boom"); CallCleanup; CallAbort]
                eq_refl) as H.
  destruct (copilot_sdk_streaming B "gpt-5" sample_conversation None world0)
    as [[r|t] w1].
  - destruct H as (_ & H & _). apply H. right. left. reflexivity.
  - apply H.
Defined.

Lemma completion_defaults_and_destroys_witness :
  let out := copilot_sdk_completion empty_reply_backend "gpt-5"
               sample_conversation None world0 in
  starts empty_reply_backend sample_conversation = true
  /\ fst out = Returned ""%string
  /\ destroys (snd out) = 1.
Proof.
  intros out.
  destruct (@completion_defaults_and_destroys empty_reply_backend "gpt-5"%string
              sample_conversation None world0 eq_refl)
    as (Hd & He & _).
  split; [reflexivity|]. split; [|exact Hd].
  apply (He (Some (Response.mk None))); reflexivity.
Defined.

(** ** Structured generation *)

Section StructuredFacts.
Context {LanguageModel : Type}.
Variable backend : LanguageModel -> JsVal.
Variable provider : sdk_provider LanguageModel.

(** Every provider but OpenRouter: the call returns the generated value
    when it conforms to the schema and throws otherwise. *)
Lemma structured_returns_object
  model conversation temperature provider_name schema w :
  forallb MessageSchema conversation = true ->
  provider_name <> openrouter ->
  fst (ai_sdk_structured (generateObject_contract backend) provider model
         conversation temperature provider_name schema w)
  = if schema (backend (call provider model))
    then Returned (backend (call provider model))
    else Threw (ThrowError
                  (mkError "No object generated: response did not match schema.")).
Proof.
  intros Hv Hn.
  unfold ai_sdk_structured, ConversationSchema_parse, generateObject_contract.
  rewrite Hv.
  destruct provider_name; try contradiction;
    unfold bind, Notice, modify, ret, throw; cbn;
    destruct (schema (backend (call provider model))); reflexivity.
Qed.

(** OpenRouter: the call throws on a non-conforming value as well, but
    on a conforming one it returns the whole result of [generateObject],
    in which the value is the [object] field. *)
Lemma structured_openrouter_returns_response
  model conversation temperature schema w :
  forallb MessageSchema conversation = true ->
  fst (ai_sdk_structured (generateObject_contract backend) provider model
         conversation temperature openrouter schema w)
  = if schema (backend (chat provider model))
    then Returned (JObject [("object"%string, backend (chat provider model));
                            ("finishReason"%string, JString "stop")])
    else Threw (ThrowError
                  (mkError "No object generated: response did not match schema.")).
Proof.
  intros Hv.
  unfold ai_sdk_structured, ConversationSchema_parse, generateObject_contract.
  rewrite Hv. unfold bind, Notice, modify, ret, throw. cbn.
  destruct (schema (backend (chat provider model))); reflexivity.
Qed.

End StructuredFacts.

(** C5 at the OpenRouter branch.  With a schema that accepts strings and a
    backend that generates the string [hello], the call made for [openai]
    returns that string, which conforms; the same call made for
    [openrouter] returns the result object wrapped around it, which the
    schema does not accept. *)
Lemma structured_openrouter_returns_result_object :
  let run := fun provider_name =>
    fst (ai_sdk_structured (generateObject_contract hello_backend)
           sample_provider "some-model" sample_conversation 0 provider_name
           z_string world0) in
  let response := JObject [("object"%string, JString "hello");
                           ("finishReason"%string, JString "stop")] in
  run openai = Returned (JString "hello")
  /\ z_string (JString "hello") = true
  /\ run openrouter = Returned response
  /\ z_string response = false
  /\ js_get "object" response = JString "hello".
Proof. repeat split. Qed.

(** ** More about the queue: arbitrary histories *)

Section HistoryFacts.
Context {T : Type}.
Implicit Type q : AsyncEventQueue.t T.

Lemma run_snoc (ops : list (Op T)) o q : run (ops ++ [o]) q = step (run ops q) o.
Proof. unfold run. rewrite fold_left_app. reflexivity. Qed.

Lemma step_maxSize q (o : Op T) : maxSize (step q o) = maxSize q.
Proof.
  destruct o as [v| |e|]; cbn [step].
  - apply push_maxSize.
  - rewrite complete_spec. reflexivity.
  - rewrite fail_spec. reflexivity.
  - unfold next. destruct (queue q); [|reflexivity].
    destruct (error q); [reflexivity|]. destruct (done q); reflexivity.
Qed.

Lemma run_maxSize (ops : list (Op T)) q : maxSize (run ops q) = maxSize q.
Proof.
  revert q. induction ops as [|o ops IH]; intros q; [reflexivity|].
  cbn. fold (run ops (step q o)). rewrite IH. apply step_maxSize.
Qed.

(** One call keeps every promise accounted for: the settled and the
    pending ones together are the promises created so far. *)
Lemma step_known q (o : Op T) :
  consistent q ->
  Permutation (known_promises q) (seq 0 (promises q)) ->
  Permutation (known_promises (step q o)) (seq 0 (promises (step q o))).
Proof.
  intros [Hp Hd] H. unfold known_promises in *.
  destruct o as [v| |e|]; cbn [step].
  - unfold push. destruct (done q); [exact H|].
    destruct (resolvers q) as [|r rs] eqn:R.
    + destruct (Z.of_nat (length (queue q)) >=? maxSize q)%Z; cbn; rewrite ?R; exact H.
    + cbn. rewrite map_app, <- app_assoc. exact H.
  - rewrite complete_spec. cbn.
    rewrite map_app, map_map, map_id, app_nil_r. exact H.
  - rewrite fail_spec. cbn. rewrite Hp, skipn_all.
    rewrite map_app, map_map, map_id, app_nil_r. exact H.
  - unfold next. destruct (queue q); [|exact H].
    destruct (error q); [exact H|]. destruct (done q); [exact H|].
    cbn [snd settled resolvers promises]. rewrite seq_S, app_assoc.
    cbn [Nat.add]. apply Permutation_app_tail. exact H.
Qed.

Lemma run_known (ops : list (Op T)) q :
  consistent q ->
  Permutation (known_promises q) (seq 0 (promises q)) ->
  Permutation (known_promises (run ops q)) (seq 0 (promises (run ops q))).
Proof.
  revert q. induction ops as [|o ops IH]; intros q Hc H; [exact H|].
  apply IH; [apply consistent_step, Hc|apply step_known; assumption].
Qed.

(** X1. In every state a history of calls can reach, each promise that
    [next] left pending is accounted for exactly once: the promises in the
    settlement log and the promises still waiting are pairwise distinct,
    and together they are exactly the promises created so far.  So no
    consumer is ever settled twice, and none is dropped. *)
Theorem promises_settled_at_most_once (C : Z) (ops : list (Op T)) :
  let q := run ops (create C) in
  NoDup (map fst (settled q) ++ resolvers q)
  /\ (forall p, In p (map fst (settled q) ++ resolvers q) <-> p < promises q)
  /\ rejecters q = resolvers q.
Proof.
  intros q.
  assert (Hc : consistent q) by apply consistent_run, consistent_create.
  assert (H : Permutation (known_promises q) (seq 0 (promises q))).
  { apply run_known; [apply consistent_create|reflexivity]. }
  unfold known_promises in H. split; [|split; [|apply Hc]].
  - apply (Permutation_NoDup (Permutation_sym H)), seq_NoDup.
  - intros p. split; intros Hin.
    + apply (Permutation_in _ H), in_seq in Hin. lia.
    + apply (Permutation_in _ (Permutation_sym H)), in_seq. lia.
Qed.

Lemma next_closed q :
  done q = true ->
  (exists s, fst (next q) = Settled s) /\ promises (snd (next q)) = promises q.
Proof.
  intros D. unfold next.
  destruct (queue q); [|split; [eexists; reflexivity|reflexivity]].
  destruct (error q); [split; [eexists; reflexivity|reflexivity]|].
  rewrite D. split; [eexists; reflexivity|reflexivity].
Qed.

(** X2. Once a history of calls has closed the queue, by [complete] or by
    [fail], nobody is left waiting: both continuation arrays are empty,
    every promise ever left pending has been settled exactly once, and a
    further [next] is settled on the spot, never left pending. *)
Theorem closed_queue_has_no_waiter (C : Z) (ops : list (Op T)) :
  let q := run ops (create C) in
  done q = true ->
  resolvers q = [] /\ rejecters q = []
  /\ Permutation (map fst (settled q)) (seq 0 (promises q))
  /\ (exists s, fst (next q) = Settled s)
  /\ promises (snd (next q)) = promises q.
Proof.
  intros q D.
  assert (Hc : consistent q) by apply consistent_run, consistent_create.
  assert (H : Permutation (known_promises q) (seq 0 (promises q))).
  { apply run_known; [apply consistent_create|reflexivity]. }
  destruct Hc as [Hp Hd]. specialize (Hd D).
  unfold known_promises in H. rewrite Hd, app_nil_r in H.
  split; [exact Hd|]. split; [congruence|]. split; [exact H|].
  apply next_closed, D.
Qed.

Lemma step_closed q (o : Op T) :
  consistent q -> done q = true ->
  done (step q o) = true
  /\ settled (step q o) = settled q
  /\ promises (step q o) = promises q
  /\ (queue (step q o) = queue q \/ queue (step q o) = tl (queue q)).
Proof.
  intros Hc D. destruct o as [v| |e|]; cbn [step].
  - rewrite push_closed by exact D. auto.
  - rewrite complete_closed by assumption. auto.
  - rewrite fail_closed by assumption. cbn. auto.
  - unfold next. destruct (queue q) as [|v b] eqn:Q.
    + destruct (error q); [cbn; rewrite Q; auto|].
      rewrite D. cbn. rewrite Q. auto.
    + cbn. auto.
Qed.

(** X3. A closed queue stays closed.  Whatever calls follow, by producer
    or consumer, the queue remains closed, no value enters the buffer
    (what is left of it is a suffix of what it held), no promise is
    created and none is settled. *)
Theorem closed_queue_stays_closed (C : Z) (ops more : list (Op T)) :
  let q := run ops (create C) in
  let q' := run more q in
  done q = true ->
  done q' = true
  /\ (exists k, queue q' = skipn k (queue q))
  /\ settled q' = settled q
  /\ promises q' = promises q.
Proof.
  intros q q' D. unfold q'. clear q'.
  assert (Hc : consistent q) by apply consistent_run, consistent_create.
  induction more as [|o more IH] using rev_ind.
  - repeat split; try assumption. exists 0. reflexivity.
  - rewrite run_snoc. destruct IH as (D' & [k Hk] & Hs & Hn).
    destruct (step_closed o (consistent_run more Hc) D') as (D2 & S2 & N2 & Q2).
    split; [exact D2|]. split; [|split; congruence].
    destruct Q2 as [Q2|Q2]; rewrite Q2, Hk.
    + exists k. reflexivity.
    + exists (S k). rewrite <- (Nat.add_1_l k), <- skipn_skipn.
      destruct (skipn k (queue q)); reflexivity.
Qed.

Lemma step_bounded q (o : Op T) :
  (1 <= maxSize q)%Z ->
  (Z.of_nat (length (queue q)) <= maxSize q)%Z ->
  (Z.of_nat (length (queue (step q o))) <= maxSize q)%Z.
Proof.
  intros HC Hb. destruct o as [v| |e|]; cbn [step].
  - unfold push. destruct (done q); [exact Hb|].
    destruct (resolvers q); [|exact Hb].
    destruct (Z.of_nat (length (queue q)) >=? maxSize q)%Z eqn:E; cbn [queue].
    + rewrite length_app. destruct (queue q); cbn in *; lia.
    + rewrite Z.geb_leb in E. apply Z.leb_gt in E.
      rewrite length_app. cbn. lia.
  - rewrite complete_spec. exact Hb.
  - rewrite fail_spec. exact Hb.
  - unfold next. destruct (queue q) as [|v b] eqn:Q.
    + destruct (error q); [cbn; rewrite Q; exact Hb|].
      destruct (done q); cbn; rewrite ?Q; exact Hb.
    + cbn in *. lia.
Qed.

(** X4. The bound on the buffer survives every interleaving of producer
    and consumer calls: on a queue created with a capacity of at least
    one, the buffer never holds more than [maxSize] values, and [maxSize]
    never changes. *)
Theorem buffer_bounded_in_every_history (C : Z) (ops : list (Op T)) :
  (1 <= C)%Z ->
  let q := run ops (create C) in
  maxSize q = C /\ (Z.of_nat (length (queue q)) <= C)%Z.
Proof.
  intros HC q. unfold q. clear q.
  induction ops as [|o ops IH] using rev_ind.
  - split; [reflexivity|cbn; lia].
  - rewrite run_snoc. destruct IH as [Hm Hb].
    split; [rewrite step_maxSize; exact Hm|].
    pose proof (@step_bounded (run ops (create C)) o) as Hs.
    rewrite Hm in Hs. apply Hs; assumption.
Qed.

Lemma step_exclusive q (o : Op T) :
  consistent q ->
  queue q = [] \/ resolvers q = [] ->
  queue (step q o) = [] \/ resolvers (step q o) = [].
Proof.
  intros [Hp Hd] H. destruct o as [v| |e|]; cbn [step].
  - unfold push. destruct (done q); [exact H|].
    destruct (resolvers q) as [|r rs] eqn:R.
    + destruct (Z.of_nat (length (queue q)) >=? maxSize q)%Z; right; cbn;
        rewrite ?R; reflexivity.
    + destruct H as [H|H]; [left; exact H|discriminate].
  - rewrite complete_spec. right. reflexivity.
  - rewrite fail_spec. right. cbn. rewrite Hp. apply skipn_all.
  - unfold next. destruct (queue q) as [|v b] eqn:Q.
    + destruct (error q); [left; cbn; rewrite ?Q; reflexivity|].
      destruct (done q); left; cbn; rewrite ?Q; reflexivity.
    + destruct H as [H|H]; [discriminate|]. right. exact H.
Qed.

(** X5. Values never wait in the buffer while a consumer waits for one:
    in every state a history of calls can reach, the buffer is empty or
    nobody is pending. *)
Theorem buffer_and_waiters_exclusive (C : Z) (ops : list (Op T)) :
  let q := run ops (create C) in
  queue q = [] \/ resolvers q = [].
Proof.
  intros q. unfold q. clear q.
  induction ops as [|o ops IH] using rev_ind; [left; reflexivity|].
  rewrite run_snoc. apply step_exclusive; [|exact IH].
  apply consistent_run, consistent_create.
Qed.

End HistoryFacts.

Section HandoffFacts.
Context {T : Type}.
Implicit Type q : AsyncEventQueue.t T.
Implicit Type log : list (PromiseId * Settlement T).

Lemma settlement_of_missing log p :
  ~ In p (map fst log) -> settlement_of log p = None.
Proof.
  unfold settlement_of. induction log as [|[p' s] log IH]; intros H; [reflexivity|].
  cbn in *. destruct (Nat.eqb_spec p' p) as [E|E]; [tauto|]. apply IH. tauto.
Qed.

Lemma settlement_of_app_missing log log' p :
  ~ In p (map fst log) -> settlement_of (log ++ log') p = settlement_of log' p.
Proof.
  unfold settlement_of. induction log as [|[p' s] log IH]; intros H; [reflexivity|].
  cbn in *. destruct (Nat.eqb_spec p' p) as [E|E]; [tauto|]. apply IH. tauto.
Qed.

Lemma settlement_of_app_found log log' p :
  In p (map fst log) -> settlement_of (log ++ log') p = settlement_of log p.
Proof.
  unfold settlement_of. induction log as [|[p' s] log IH]; intros H; [destruct H|].
  cbn in *. destruct (Nat.eqb_spec p' p) as [E|E]; [reflexivity|].
  apply IH. tauto.
Qed.

Lemma step_log_extends q (o : Op T) :
  exists extra, settled (step q o) = settled q ++ extra.
Proof.
  destruct o as [v| |e|]; cbn [step].
  - unfold push. destruct (done q); [exists []; symmetry; apply app_nil_r|].
    destruct (resolvers q).
    + destruct (Z.of_nat (length (queue q)) >=? maxSize q)%Z;
        exists []; symmetry; apply app_nil_r.
    + eexists. reflexivity.
  - rewrite complete_spec. eexists. reflexivity.
  - rewrite fail_spec. eexists. reflexivity.
  - unfold next. exists []. rewrite app_nil_r.
    destruct (queue q); [|reflexivity].
    destruct (error q); [reflexivity|]. destruct (done q); reflexivity.
Qed.

Lemma trace_run (ops : list (Op T)) q : snd (trace ops q) = run ops q.
Proof.
  revert q. induction ops as [|o ops IH]; intros q; [reflexivity|].
  destruct o; cbn [trace run fold_left step]; try apply IH.
  destruct (next q) as [r q1] eqn:E. specialize (IH q1).
  destruct (trace ops q1) as [rs q2]. cbn [snd] in *. exact IH.
Qed.

Lemma run_log_extends (ops : list (Op T)) q :
  exists extra, settled (run ops q) = settled q ++ extra.
Proof.
  revert q. induction ops as [|o ops IH]; intros q.
  - exists []. symmetry. apply app_nil_r.
  - destruct (IH (step q o)) as [e2 H2]. destruct (step_log_extends q o) as [e1 H1].
    exists (e1 ++ e2). cbn. fold (run ops (step q o)).
    rewrite H2, H1, app_assoc. reflexivity.
Qed.

(** The hand-off on a queue in any open state: the consumers already
    waiting are served first, in the order they arrived, and every later
    [next] gets the next value in line. *)
Lemma handoff_general (ops : list (Op T)) :
  forall q,
    only_push_next ops = true ->
    done q = false -> error q = None ->
    queue q = [] \/ resolvers q = [] ->
    (Z.of_nat (length (queue q) + length (pushed ops)) <= maxSize q)%Z ->
    NoDup (resolvers q) ->
    (forall p, In p (resolvers q) -> ~ In p (map fst (settled q))) ->
    (forall p, In p (resolvers q) \/ In p (map fst (settled q)) -> p < promises q) ->
    let log := settled (snd (trace ops q)) in
    (forall i p, nth_error (resolvers q) i = Some p ->
       settlement_of log p
       = option_map (fun v => Resolve (IterValue v)) (nth_error (pushed ops) i))
    /\ (forall j r, nth_error (fst (trace ops q)) j = Some r ->
          outcome log r
          = option_map (fun v => Resolve (IterValue v))
              (nth_error (queue q ++ pushed ops) (length (resolvers q) + j))).
Proof.
  induction ops as [|o ops IH]; intros q Hops D E Hex Hfit Hnd Hdis Hlt log.
  - subst log. cbn [trace fst snd pushed flat_map]. split.
    + intros i p Hp. rewrite settlement_of_missing.
      * destruct i; reflexivity.
      * apply Hdis. eapply nth_error_In, Hp.
    + intros j r Hr. destruct j; discriminate Hr.
  - cbn [only_push_next forallb] in Hops. apply andb_prop in Hops as [Ho Hops].
    fold (only_push_next ops) in Hops.
    destruct o as [v| |e|]; try discriminate Ho.
    + (* push *)
      subst log. cbn [trace pushed flat_map app] in *.
      fold (pushed ops) in *. cbn [step].
      destruct q as [b ps rj d e C n L w]. cbn in D, E, Hex, Hfit, Hnd, Hdis, Hlt.
      subst d e. destruct ps as [|p0 ps].
      * (* buffered *)
        assert (Hlt' : (Z.of_nat (length b) >=? C)%Z = false).
        { rewrite Z.geb_leb. apply Z.leb_gt. cbn [length] in Hfit. lia. }
        unfold push. cbn [done resolvers queue maxSize]. rewrite Hlt'.
        cbn [rejecters error promises settled warnings].
        match goal with |- context [trace ops ?q1] => pose (q1' := q1) end.
        fold q1'.
        assert (F1 : (Z.of_nat (length (queue q1') + length (pushed ops))
                      <= maxSize q1')%Z).
        { cbn. rewrite length_app. cbn [length] in *. lia. }
        destruct (IH q1' Hops eq_refl eq_refl (or_intror eq_refl) F1 Hnd Hdis Hlt)
          as [_ IHb].
        split; [intros i p Hp; destruct i; discriminate Hp|].
        intros j r Hr. rewrite (IHb j r Hr). cbn [queue q1' resolvers].
        rewrite <- app_assoc. reflexivity.
      * (* handed to the oldest waiter *)
        destruct Hex as [Hb|Hb]; [|discriminate Hb]. subst b.
        unfold push. cbn [done resolvers queue maxSize rejecters error promises
                            settled warnings].
        match goal with |- context [trace ops ?q1] => pose (q1' := q1) end.
        fold q1'.
        destruct (run_log_extends ops q1') as [extra Hextra].
        inversion Hnd as [|? ? Hp0 Hps]; subst.
        assert (F1 : (Z.of_nat (length (queue q1') + length (pushed ops))
                      <= maxSize q1')%Z).
        { cbn. cbn [length] in *. lia. }
        assert (F2 : forall p, In p (resolvers q1') ->
                               ~ In p (map fst (settled q1'))).
        { cbn. intros p Hin. rewrite map_app, in_app_iff. cbn.
          intros [H|[H|[]]].
          - apply (Hdis p); [right; exact Hin|exact H].
          - subst. contradiction. }
        assert (F3 : forall p, In p (resolvers q1') \/ In p (map fst (settled q1'))
                               -> p < promises q1').
        { cbn. intros p [H|H]; [apply Hlt; left; right; exact H|].
          rewrite map_app, in_app_iff in H. cbn in H.
          destruct H as [H|[H|[]]]; [apply Hlt; right; exact H|].
          subst. apply Hlt. left. left. reflexivity. }
        destruct (IH q1' Hops eq_refl eq_refl (or_introl eq_refl) F1 Hps F2 F3)
          as [IHa IHb].
        split.
        -- intros i p Hp. destruct i as [|i].
           ++ cbn in Hp. injection Hp as <-.
              rewrite trace_run, Hextra. cbn [settled q1'].
              rewrite settlement_of_app_found
                by (rewrite map_app, in_app_iff; right; left; reflexivity).
              rewrite settlement_of_app_missing
                by (apply Hdis; left; reflexivity).
              unfold settlement_of. cbn. rewrite Nat.eqb_refl. reflexivity.
           ++ cbn in Hp. rewrite (IHa i p Hp). reflexivity.
        -- intros j r Hr. rewrite (IHb j r Hr). reflexivity.
    + (* next *)
      subst log. cbn [pushed flat_map app] in *. fold (pushed ops) in *.
      destruct q as [b ps rj d e C n L w]. cbn in D, E, Hex, Hfit, Hnd, Hdis, Hlt.
      subst d e. destruct b as [|v b].
      * (* nothing buffered: the consumer waits *)
        cbn [trace next queue error done promises resolvers rejecters maxSize
               settled warnings].
        match goal with |- context [trace ops ?q1] => pose (q1' := q1) end.
        fold q1'.
        assert (F0 : NoDup (resolvers q1')).
        { cbn. apply NoDup_app; [exact Hnd|constructor; [intros []|constructor]|].
          intros p Hin [Heq|[]]. specialize (Hlt p (or_introl Hin)). lia. }
        assert (F2 : forall p, In p (resolvers q1') ->
                               ~ In p (map fst (settled q1'))).
        { cbn. intros p Hin Hk. apply in_app_iff in Hin as [Hin|[Heq|[]]].
          - apply (Hdis p Hin Hk).
          - specialize (Hlt p (or_intror Hk)). lia. }
        assert (F3 : forall p, In p (resolvers q1') \/ In p (map fst (settled q1'))
                               -> p < promises q1').
        { cbn. intros p [H|H].
          - apply in_app_iff in H as [H|[Heq|[]]]; [|lia].
            specialize (Hlt p (or_introl H)). lia.
          - specialize (Hlt p (or_intror H)). lia. }
        destruct (IH q1' Hops eq_refl eq_refl (or_introl eq_refl) Hfit F0 F2 F3)
          as [IHa IHb].
        destruct (trace ops q1') as [rs q2] eqn:Et. cbn [fst snd] in *.
        split.
        -- intros i p Hp. apply IHa. cbn. rewrite nth_error_app1; [exact Hp|].
           apply nth_error_Some. congruence.
        -- intros j r Hr. destruct j as [|j].
           ++ cbn in Hr. injection Hr as <-. cbn [outcome].
              rewrite (IHa (length ps) n).
              ** rewrite Nat.add_0_r. reflexivity.
              ** cbn. rewrite nth_error_app2, Nat.sub_diag by lia. reflexivity.
           ++ cbn in Hr. rewrite (IHb j r Hr). cbn [queue q1' resolvers].
              rewrite length_app. cbn [length app].
              f_equal. f_equal. lia.
      * (* a buffered value is handed out *)
        destruct Hex as [Hb|Hb]; [discriminate Hb|]. subst ps.
        cbn [trace next queue error done promises resolvers rejecters maxSize
               settled warnings].
        match goal with |- context [trace ops ?q1] => pose (q1' := q1) end.
        fold q1'.
        assert (F1 : (Z.of_nat (length (queue q1') + length (pushed ops))
                      <= maxSize q1')%Z).
        { cbn. cbn [length] in *. lia. }
        destruct (IH q1' Hops eq_refl eq_refl (or_intror eq_refl) F1 Hnd Hdis Hlt)
          as [_ IHb].
        destruct (trace ops q1') as [rs q2] eqn:Et. cbn [fst snd] in *.
        split; [intros i p Hp; destruct i; discriminate Hp|].
        intros j r Hr. destruct j as [|j].
        -- cbn in Hr. injection Hr as <-. reflexivity.
        -- cbn in Hr. rewrite (IHb j r Hr). reflexivity.
Qed.

(** X6. First come, first served, under every interleaving.  Take any
    history of [push] and [next] calls on a fresh queue whose capacity the
    pushes never exceed.  The consumer that made the [j]-th call of [next]
    receives the [j]-th pushed value, whether it found the value buffered
    or had to wait for it; it is still waiting exactly when fewer than
    [j + 1] values have been pushed. *)
Theorem next_calls_served_in_push_order (C : Z) (ops : list (Op T)) :
  only_push_next ops = true ->
  (Z.of_nat (length (pushed ops)) <= C)%Z ->
  let promises_made := fst (trace ops (create C)) in
  let log := settled (run ops (create C)) in
  forall j r,
    nth_error promises_made j = Some r ->
    outcome log r
    = option_map (fun v => Resolve (IterValue v)) (nth_error (pushed ops) j).
Proof.
  intros Hops Hfit promises_made log j r Hr.
  unfold log. rewrite <- trace_run.
  destruct (@handoff_general ops (create C) Hops eq_refl eq_refl
              (or_introl eq_refl) Hfit (NoDup_nil _)
              (fun p (H : In p []) => match H with end)) as [_ Hb].
  { intros p [[]|[]]. }
  apply (Hb j r Hr).
Qed.

End HandoffFacts.

Lemma closed_queue_has_no_waiter_witness :
  let q := run [OpNext; OpNext; OpPush "a"%string; OpFail (mkError "x")]
               (create 1000) in
  done q = true
  /\ resolvers q = []
  /\ map fst (settled q) = [0; 1].
Proof.
  intros q.
  destruct (@closed_queue_has_no_waiter string 1000
              [OpNext; OpNext; OpPush "a"%string; OpFail (mkError "x")] eq_refl)
    as (Hr & _).
  split; [reflexivity|]. split; [exact Hr|reflexivity].
Defined.

Lemma closed_queue_stays_closed_witness :
  let q := run [OpPush "a"%string; OpPush "b"%string; OpComplete] (create 1000) in
  let q' := run [OpPush "c"%string; OpNext; OpFail (mkError "x"); OpComplete] q in
  done q = true /\ done q' = true /\ settled q' = settled q.
Proof.
  intros q q'.
  destruct (@closed_queue_stays_closed string 1000
              [OpPush "a"%string; OpPush "b"%string; OpComplete]
              [OpPush "c"%string; OpNext; OpFail (mkError "x"); OpComplete]
              eq_refl)
    as (Hd & _ & Hs & _).
  split; [reflexivity|]. split; [exact Hd|exact Hs].
Defined.

Lemma buffer_bounded_in_every_history_witness :
  (Z.of_nat (length (queue (run [OpPush "a"; OpPush "b"; OpNext; OpPush "c";
                                 OpPush "d"]%string (create 2)))) <= 2)%Z.
Proof.
  apply (@buffer_bounded_in_every_history string 2
           [OpPush "a"; OpPush "b"; OpNext; OpPush "c"; OpPush "d"]%string).
  vm_compute. discriminate.
Defined.

Lemma next_calls_served_in_push_order_witness :
  let ops := [OpNext; OpPush "a"; OpPush "b"; OpNext; OpNext]%string in
  only_push_next ops = true
  /\ outcome (settled (run ops (create 1000))) (Pending 0)
     = Some (Resolve (IterValue "a"%string))
  /\ outcome (settled (run ops (create 1000))) (Pending 1) = None.
Proof.
  intros ops. split; [reflexivity|]. split.
  - apply (@next_calls_served_in_push_order string 1000 ops eq_refl
             ltac:(vm_compute; discriminate) 0 (Pending 0) eq_refl).
  - apply (@next_calls_served_in_push_order string 1000 ops eq_refl
             ltac:(vm_compute; discriminate) 2 (Pending 1) eq_refl).
Defined.

(** ** More about the Copilot session *)

Section SessionExtras.
Variable B : Backend.

#[local] Arguments push : simpl never.
#[local] Arguments complete : simpl never.
#[local] Arguments fail : simpl never.
#[local] Arguments next : simpl never.
#[local] Arguments create : simpl never.

Ltac js_eval :=
  unfold session_destroy, session_abort, record_sent,
    set_cleanedUp, set_subscribed, console_log, Notice, on_textQueue,
    on_reasoningQueue, createSession, try_catch, try_finally, bind,
    modify, ret, throw in *.

(** No user turn: [filter(...).pop()] finds nothing. *)
Lemma lastUserMessage_none conversation :
  forallb (fun m => negb (Message.role m =? "user")%string) conversation = true ->
  lastUserMessage conversation = None.
Proof.
  intros H. unfold lastUserMessage.
  replace (filter (fun m => (Message.role m =? "user")%string) conversation)
    with (@nil Message.t); [reflexivity|].
  induction conversation as [|m ms IH]; [reflexivity|].
  cbn in *. apply andb_prop in H as [Hm H].
  apply negb_true_iff in Hm. rewrite Hm. apply IH, H.
Qed.

(** The user turn that nothing but other roles follows is the one found. *)
Lemma lastUserMessage_last before m after :
  Message.role m = "user"%string ->
  forallb (fun m => negb (Message.role m =? "user")%string) after = true ->
  lastUserMessage (before ++ m :: after) = Some m.
Proof.
  intros Hm Ha. unfold lastUserMessage.
  rewrite filter_app. cbn [filter]. rewrite Hm. cbn [String.eqb Ascii.eqb Bool.eqb].
  replace (filter (fun m => (Message.role m =? "user")%string) after)
    with (@nil Message.t).
  - rewrite map_app. cbn [map]. apply last_last.
  - induction after as [|a after IH]; [reflexivity|].
    cbn in *. apply andb_prop in Ha as [Ha1 Ha].
    apply negb_true_iff in Ha1. rewrite Ha1. apply IH, Ha.
Qed.

(** X7. A conversation that is well formed but has no message of role
    [user] is rejected by both Copilot entry points with the error [No
    user message found in conversation]; all they have done by then is
    show the [Calling GitHub Copilot] notice: no session is created and
    nothing is sent. *)
Theorem conversation_without_user_rejected
  model conversation systemMessage w0 :
  forallb MessageSchema conversation = true ->
  forallb (fun m => negb (Message.role m =? "user")%string) conversation = true ->
  let err := ThrowError (mkError "No user message found in conversation") in
  let w1 := snd (Notice "Calling GitHub Copilot" w0) in
  copilot_sdk_streaming B model conversation systemMessage w0 = (Threw err, w1)
  /\ copilot_sdk_completion B model conversation systemMessage w0 = (Threw err, w1)
  /\ sessions w1 = sessions w0 /\ sent w1 = sent w0.
Proof.
  intros Hv Hu err w1. apply lastUserMessage_none in Hu.
  unfold copilot_sdk_streaming, copilot_sdk_completion, ConversationSchema_parse.
  rewrite Hv. js_eval. cbn. rewrite Hu. repeat split.
Qed.

(** X8. A conversation with a message whose role is none of [system],
    [user], [assistant] is rejected by both Copilot entry points with the
    validator's error.  The [Calling GitHub Copilot] notice has already
    been shown, and nothing else has happened. *)
Theorem malformed_conversation_rejected_by_copilot
  model conversation systemMessage w0 :
  forallb MessageSchema conversation = false ->
  let w1 := snd (Notice "Calling GitHub Copilot" w0) in
  copilot_sdk_streaming B model conversation systemMessage w0
  = (Threw (ThrowError ZodError), w1)
  /\ copilot_sdk_completion B model conversation systemMessage w0
     = (Threw (ThrowError ZodError), w1)
  /\ notices w1 = notices w0 ++ ["Calling GitHub Copilot"%string]
  /\ sessions w1 = sessions w0.
Proof.
  intros Hv w1.
  unfold copilot_sdk_streaming, copilot_sdk_completion, ConversationSchema_parse.
  rewrite Hv. repeat split.
Qed.

(** What the handler never touches. *)
Lemma handler_session_calls event w :
  let w' := snd (handler B event w) in
  sessions w' = sessions w /\ sent w' = sent w /\ aborts w' = aborts w.
Proof.
  destruct (is_session_error event) eqn:E.
  - apply is_session_error_true in E as (ev & -> & Hty).
    rewrite handler_session_error by exact Hty. cbn [snd].
    match goal with
    | |- context [performCleanup B ?x] =>
        destruct (cleanedUp x) eqn:Hc;
        [rewrite (performCleanup_again B x Hc)
        |rewrite (performCleanup_first B x Hc)]
    end; repeat split.
  - unfold handler. destruct event as [ev|]; cbn in E; [|repeat split].
    destruct (Event.type ev) as [type|]; [|repeat split].
    destruct (type =? "assistant.message_delta")%string;
      [destruct (delta_of ev); repeat split|].
    destruct (type =? "assistant.reasoning_delta")%string;
      [destruct (delta_of ev); repeat split|].
    rewrite E.
    destruct (type =? "session.idle")%string; repeat split.
Qed.

Lemma emit_all_session_calls events w :
  let w' := snd (emit_all B events w) in
  sessions w' = sessions w /\ sent w' = sent w /\ aborts w' = aborts w.
Proof.
  rewrite emit_all_spec. cbn [snd]. revert w.
  induction events as [|ev events IH]; intros w; [repeat split|].
  cbn [fold_left]. destruct (IH (snd (emit B ev w))) as (I1 & I2 & I3).
  assert (H : sessions (snd (emit B ev w)) = sessions w
              /\ sent (snd (emit B ev w)) = sent w
              /\ aborts (snd (emit B ev w)) = aborts w).
  { unfold emit. destruct (subscribed w); [apply handler_session_calls|repeat split]. }
  destruct H as (H1 & H2 & H3). repeat split; congruence.
Qed.

(** X9. Only the most recent user turn is dispatched.  When the
    conversation is well formed and its last message of role [user] is
    [m], [copilot_sdk_streaming] and [copilot_sdk_completion] each create
    exactly one session and send it exactly one prompt, the content of
    [m]; earlier turns and whatever follows [m] are not sent.  This holds
    whether or not sending then fails. *)
Theorem only_last_user_message_sent
  model before m after systemMessage w0 :
  createSession_throws B = None ->
  forallb MessageSchema (before ++ m :: after) = true ->
  Message.role m = "user"%string ->
  forallb (fun m => negb (Message.role m =? "user")%string) after = true ->
  let conversation := before ++ m :: after in
  let ws := snd (copilot_sdk_streaming B model conversation systemMessage w0) in
  let wc := snd (copilot_sdk_completion B model conversation systemMessage w0) in
  sent ws = [Message.content m] /\ sessions ws = S (sessions w0)
  /\ sent wc = [Message.content m] /\ sessions wc = S (sessions w0).
Proof.
  intros Hc Hv Hm Ha conversation ws wc.
  pose proof (lastUserMessage_last before m after Hm Ha) as Hl.
  fold conversation in Hl, Hv.
  assert (Hs : starts B conversation = true).
  { unfold starts. rewrite Hv, Hl, Hc. reflexivity. }
  split; [|split]; [| |split].
  - unfold ws.
    destruct (streaming_runs B model conversation systemMessage w0 Hs)
      as (lastUser & Hl' & E).
    rewrite Hl in Hl'. injection Hl' as <-. rewrite E. cbv zeta.
    match goal with
    | |- context [emit_all B ?evs ?w] =>
        destruct (emit_all_session_calls evs w) as (_ & H2 & _)
    end.
    destruct (send_throws B); cbn [snd].
    + match goal with
      | |- context [performCleanup B ?x] =>
          destruct (cleanedUp x) eqn:Hcu;
          [rewrite (performCleanup_again B x Hcu)
          |rewrite (performCleanup_first B x Hcu)]
      end; cbn [sent]; exact H2.
    + exact H2.
  - unfold ws.
    destruct (streaming_runs B model conversation systemMessage w0 Hs)
      as (lastUser & Hl' & E).
    rewrite E. cbv zeta.
    match goal with
    | |- context [emit_all B ?evs ?w] =>
        destruct (emit_all_session_calls evs w) as (H1 & _ & _)
    end.
    destruct (send_throws B); cbn [snd].
    + match goal with
      | |- context [performCleanup B ?x] =>
          destruct (cleanedUp x) eqn:Hcu;
          [rewrite (performCleanup_again B x Hcu)
          |rewrite (performCleanup_first B x Hcu)]
      end; cbn [sessions]; exact H1.
    + exact H1.
  - unfold wc, copilot_sdk_completion, ConversationSchema_parse, session_sendAndWait.
    rewrite Hv. js_eval. cbn. rewrite Hl, Hc. cbn.
    destruct (sendAndWait_result B); destruct (destroy_throws B); reflexivity.
  - unfold wc, copilot_sdk_completion, ConversationSchema_parse, session_sendAndWait.
    rewrite Hv. js_eval. cbn. rewrite Hl, Hc. cbn.
    destruct (sendAndWait_result B); destruct (destroy_throws B); reflexivity.
Qed.

Lemma after_emits r events w :
  after B r (map Emit events) w = snd (emit_all B events w).
Proof.
  rewrite emit_all_spec. cbn [snd]. revert w.
  induction events as [|ev events IH]; intros w; [reflexivity|].
  cbn [map after fold_left act]. apply IH.
Qed.

Lemma emit_all_app events1 events2 w :
  snd (emit_all B (events1 ++ events2) w)
  = snd (emit_all B events2 (snd (emit_all B events1 w))).
Proof. rewrite !emit_all_spec. cbn [snd]. apply fold_left_app. Qed.

Lemma emit_all_unsubscribed events w :
  subscribed w = false -> snd (emit_all B events w) = w.
Proof.
  intros H. rewrite emit_all_spec. cbn [snd].
  induction events as [|ev events IH]; [reflexivity|].
  cbn [fold_left]. unfold emit at 2. rewrite H. exact IH.
Qed.

Lemma texts_app cs1 cs2 : texts (cs1 ++ cs2) = texts cs1 ++ texts cs2.
Proof. apply flat_map_app. Qed.

Lemma reasonings_app cs1 cs2 :
  reasonings (cs1 ++ cs2) = reasonings cs1 ++ reasonings cs2.
Proof. apply flat_map_app. Qed.

Lemma pushes_app {T} (vs1 vs2 : list T) q :
  pushes (vs1 ++ vs2) q = pushes vs2 (pushes vs1 q).
Proof. apply fold_left_app. Qed.

(** The router on deltas: text deltas are pushed on the text queue,
    reasoning deltas on the reasoning queue, and nothing else changes. *)
Lemma emit_chunks cs w :
  subscribed w = true ->
  snd (emit_all B (map chunk_event cs) w)
  = mkWorld (pushes (texts cs) (textQueue w))
            (pushes (reasonings cs) (reasoningQueue w))
            (cleanedUp w) (subscribed w) (sessions w) (sent w) (aborts w)
            (destroys w) (notices w) (console w).
Proof.
  rewrite emit_all_spec. cbn [snd]. revert w.
  induction cs as [|c cs IH]; intros w Hs.
  - destruct w; reflexivity.
  - cbn [map fold_left]. unfold emit at 2. rewrite Hs.
    destruct c as [text|text]; cbn [chunk_event].
    + assert (Hh : snd (handler B (delta_event text) w)
                   = snd (on_textQueue (push text) w)) by reflexivity.
      rewrite Hh, IH by exact Hs.
      unfold on_textQueue, modify.
      cbn [snd textQueue reasoningQueue cleanedUp subscribed sessions sent
             aborts destroys notices console].
      rewrite ?Hs. reflexivity.
    + assert (Hh : snd (handler B (reasoning_event text) w)
                   = snd (on_reasoningQueue (push text) w)) by reflexivity.
      rewrite Hh, IH by exact Hs.
      unfold on_reasoningQueue, modify.
      cbn [snd textQueue reasoningQueue cleanedUp subscribed sessions sent
             aborts destroys notices console].
      rewrite ?Hs. reflexivity.
Qed.

Lemma closed_after_pushes {T} (vs : list T) (fuel : nat) :
  (Z.of_nat (length vs) <= default_maxSize)%Z ->
  length vs < fuel ->
  fst (pull_until_done fuel (complete (pushes vs (create default_maxSize))))
  = delivered vs ++ [Settled (Resolve IterDone)].
Proof.
  intros Hfit Hfuel.
  rewrite pushes_fit by (try split; try reflexivity; exact Hfit).
  rewrite complete_spec. cbn [queue resolvers rejecters error maxSize promises
                               settled warnings create].
  rewrite pull_until_done_drains by exact Hfuel. reflexivity.
Qed.

Lemma failed_after_pushes {T} (vs : list T) (e : JsError) (fuel : nat) :
  (Z.of_nat (length vs) <= default_maxSize)%Z ->
  length vs < fuel ->
  fst (pull_until_done fuel (fail e (pushes vs (create default_maxSize))))
  = delivered vs ++ [Settled (Reject e)].
Proof.
  intros Hfit Hfuel.
  rewrite pushes_fit by (try split; try reflexivity; exact Hfit).
  rewrite fail_spec. cbn [queue resolvers rejecters error maxSize promises
                           settled warnings create].
  rewrite pull_until_done_drains by exact Hfuel. reflexivity.
Qed.

(** The world a successful call returns when the session emitted only
    deltas while [send] was awaited. *)
Lemma streaming_after_chunks model conversation systemMessage w0 during :
  starts B conversation = true ->
  send_events B = map chunk_event during ->
  send_throws B = None ->
  exists lastUser,
    copilot_sdk_streaming B model conversation systemMessage w0
    = (Returned (mkStream abort_control (performCleanup B)),
       mkWorld (pushes (texts during) (create default_maxSize))
               (pushes (reasonings during) (create default_maxSize))
               false true (S (sessions w0)) [Message.content lastUser] 0 0
               (notices w0 ++ ["Calling GitHub Copilot"%string]) (console w0)).
Proof.
  intros Hs He Hsend.
  destruct (streaming_runs B model conversation systemMessage w0 Hs)
    as (lastUser & _ & E).
  exists lastUser. rewrite E. cbv zeta. rewrite Hsend, He.
  rewrite emit_chunks by reflexivity. reflexivity.
Qed.

(** X10. Fan-out of a turn that ends normally.  The session emits text
    and reasoning deltas, some while [send] is awaited and the rest after
    the call has returned, and then [session.idle]; neither channel gets
    more deltas than the buffer holds.  A consumer of the text stream then
    observes exactly the text deltas, in the order emitted, and the end of
    the sequence; a consumer of the reasoning stream observes exactly the
    reasoning deltas and the end of the sequence.  The session has not
    been destroyed: that is left to [cleanup]. *)
Theorem deltas_then_idle_observed
  model conversation systemMessage w0 during later :
  starts B conversation = true ->
  send_events B = map chunk_event during ->
  send_throws B = None ->
  (Z.of_nat (length (texts (during ++ later))) <= default_maxSize)%Z ->
  (Z.of_nat (length (reasonings (during ++ later))) <= default_maxSize)%Z ->
  match copilot_sdk_streaming B model conversation systemMessage w0 with
  | (Returned r, w1) =>
      let w2 := after B r (map Emit (map chunk_event later ++ [idle_event])) w1 in
      (forall fuel, length (texts (during ++ later)) < fuel ->
         fst (pull_until_done fuel (textQueue w2))
         = delivered (texts (during ++ later)) ++ [Settled (Resolve IterDone)])
      /\ (forall fuel, length (reasonings (during ++ later)) < fuel ->
            fst (pull_until_done fuel (reasoningQueue w2))
            = delivered (reasonings (during ++ later))
              ++ [Settled (Resolve IterDone)])
      /\ destroys w2 = 0
  | (Threw _, _) => False
  end.
Proof.
  intros Hs He Hsend Ht Hr.
  destruct (streaming_after_chunks model conversation systemMessage w0 during
              Hs He Hsend) as (lastUser & ->).
  intros w2. unfold w2. clear w2.
  rewrite after_emits, emit_all_app, emit_chunks by reflexivity.
  cbn [textQueue reasoningQueue cleanedUp subscribed sessions sent aborts
         destroys notices console].
  rewrite <- !pushes_app, <- texts_app, <- reasonings_app.
  split; [|split].
  - intros fuel Hf. apply closed_after_pushes; assumption.
  - intros fuel Hf. apply closed_after_pushes; assumption.
  - reflexivity.
Qed.

(** A [session.error] event reaching the handler before any teardown. *)
Lemma emit_session_error message w :
  subscribed w = true -> cleanedUp w = false ->
  let err := mkError ("Copilot streaming error: "
                      ++ or_default (Some message) "Unknown error") in
  snd (emit_all B [error_event message] w)
  = mkWorld (fail err (textQueue w)) (fail err (reasoningQueue w)) true false
            (sessions w) (sent w) (aborts w) (S (destroys w))
            (notices w ++ [("Copilot error: "
                            ++ or_default (Some message) "Unknown error")%string])
            (match destroy_throws B with
             | Some _ => (console w ++ ["Copilot session error:"%string])
                         ++ ["Error destroying Copilot session:"%string]
             | None => console w ++ ["Copilot session error:"%string]
             end).
Proof.
  intros Hs Hc err.
  rewrite emit_all_spec. cbn [snd fold_left]. unfold emit. rewrite Hs.
  unfold error_event. rewrite handler_session_error by reflexivity. cbn [snd].
  cbn [message_of Event.data Event.message]. fold err.
  rewrite performCleanup_first by exact Hc. reflexivity.
Qed.

(** X11. Fan-out of a turn that ends in an error.  When the deltas are
    followed by a [session.error] event instead, each consumer observes
    the deltas of its channel, in the order emitted, and then a rejection
    with [Copilot streaming error: ] followed by the reported message (or
    [Unknown error] for an empty one).  The session has been destroyed
    exactly once, and whatever the session emits afterwards changes
    nothing. *)
Theorem deltas_then_error_observed
  model conversation systemMessage w0 during later message events :
  starts B conversation = true ->
  send_events B = map chunk_event during ->
  send_throws B = None ->
  (Z.of_nat (length (texts (during ++ later))) <= default_maxSize)%Z ->
  (Z.of_nat (length (reasonings (during ++ later))) <= default_maxSize)%Z ->
  let err := mkError ("Copilot streaming error: "
                      ++ or_default (Some message) "Unknown error") in
  match copilot_sdk_streaming B model conversation systemMessage w0 with
  | (Returned r, w1) =>
      let w2 := after B r (map Emit (map chunk_event later ++ [error_event message]))
                      w1 in
      (forall fuel, length (texts (during ++ later)) < fuel ->
         fst (pull_until_done fuel (textQueue w2))
         = delivered (texts (during ++ later)) ++ [Settled (Reject err)])
      /\ (forall fuel, length (reasonings (during ++ later)) < fuel ->
            fst (pull_until_done fuel (reasoningQueue w2))
            = delivered (reasonings (during ++ later)) ++ [Settled (Reject err)])
      /\ destroys w2 = 1
      /\ after B r (map Emit events) w2 = w2
  | (Threw _, _) => False
  end.
Proof.
  intros Hs He Hsend Ht Hr err.
  destruct (streaming_after_chunks model conversation systemMessage w0 during
              Hs He Hsend) as (lastUser & ->).
  intros w2. unfold w2. clear w2.
  rewrite !after_emits, emit_all_app, emit_chunks by reflexivity.
  cbn [textQueue reasoningQueue cleanedUp subscribed sessions sent aborts
         destroys notices console].
  rewrite <- !pushes_app, <- texts_app, <- reasonings_app.
  rewrite emit_session_error by reflexivity. cbv zeta. fold err.
  cbn [textQueue reasoningQueue cleanedUp subscribed sessions sent aborts
         destroys notices console].
  split; [|split; [|split]].
  - intros fuel Hf. apply failed_after_pushes; assumption.
  - intros fuel Hf. apply failed_after_pushes; assumption.
  - reflexivity.
  - apply emit_all_unsubscribed. reflexivity.
Qed.

(** X12. The router survives every event.  Whatever the session emits,
    and even when [session.destroy] throws, the handler returns normally.
    A falsy event or one without a string [type] only writes a console
    warning; an event of an unknown type, and a delta without a string
    [deltaContent], change nothing at all. *)
Theorem handler_survives_every_event event w :
  fst (handler B event w) = Returned tt
  /\ (event = None \/ (exists ev, event = Some ev /\ Event.type ev = None) ->
      snd (handler B event w)
      = snd (console_log "Received invalid event from Copilot session:" w))
  /\ (forall ev type,
        event = Some ev -> Event.type ev = Some type ->
        ~ In type ["assistant.message_delta"; "assistant.reasoning_delta";
                   "session.error"; "session.idle"]%string ->
        snd (handler B event w) = w)
  /\ (forall ev type,
        event = Some ev -> Event.type ev = Some type ->
        In type ["assistant.message_delta"; "assistant.reasoning_delta"]%string ->
        delta_of ev = None ->
        snd (handler B event w) = w).
Proof.
  split; [apply handler_returns|]. split; [|split].
  - intros [->|(ev & -> & Hty)]; [reflexivity|].
    unfold handler. rewrite Hty. reflexivity.
  - intros ev type -> Hty Hn. unfold handler. rewrite Hty.
    cbn [In] in Hn.
    destruct (String.eqb_spec type "assistant.message_delta");
      [exfalso; apply Hn; subst; auto 10|].
    destruct (String.eqb_spec type "assistant.reasoning_delta");
      [exfalso; apply Hn; subst; auto 10|].
    destruct (String.eqb_spec type "session.error");
      [exfalso; apply Hn; subst; auto 10|].
    destruct (String.eqb_spec type "session.idle");
      [exfalso; apply Hn; subst; auto 10|].
    destruct w; reflexivity.
  - intros ev type -> Hty Hin Hd. unfold handler. rewrite Hty, Hd.
    destruct Hin as [<-|[<-|[]]]; destruct w; reflexivity.
Qed.

Lemma act_keeps_session a w :
  no_teardown_trigger a = true ->
  cleanedUp w = false /\ subscribed w = true /\ destroys w = 0 ->
  let w' := snd (act B (mkStream abort_control (performCleanup B)) a w) in
  cleanedUp w' = false /\ subscribed w' = true /\ destroys w' = 0.
Proof.
  intros Ha (Hc & Hs & Hd). destruct a as [event| | | |]; cbn in Ha.
  - apply negb_true_iff in Ha. cbn [act]. unfold emit. rewrite Hs.
    destruct (handler_other B event w Ha) as (_ & H1 & H2 & H3 & _).
    cbv zeta. rewrite H1, H2, H3. auto.
  - cbn [act abort]. rewrite abort_control_spec. cbn. auto.
  - discriminate Ha.
  - cbn. auto.
  - cbn. auto.
Qed.

(** X13. Nothing but [cleanup] or a session error releases the session.
    After a call that returned without a [session.error] event so far, any
    sequence of deltas, idle or unknown events, aborts and pulls leaves
    the session undestroyed and the handler subscribed: [abort] and the
    normal end of a turn do not call [session.destroy]. *)
Theorem session_lives_until_cleanup
  model conversation systemMessage w0 acts :
  starts B conversation = true ->
  send_throws B = None ->
  forallb (fun ev => negb (is_session_error ev)) (send_events B) = true ->
  forallb no_teardown_trigger acts = true ->
  match copilot_sdk_streaming B model conversation systemMessage w0 with
  | (Returned r, w1) =>
      let w2 := after B r acts w1 in
      destroys w2 = 0 /\ cleanedUp w2 = false /\ subscribed w2 = true
  | (Threw _, _) => False
  end.
Proof.
  intros Hs Hsend Hev Hacts.
  destruct (streaming_runs B model conversation systemMessage w0 Hs)
    as (lastUser & _ & E).
  rewrite E. cbv zeta. rewrite Hsend.
  rewrite <- (after_emits (mkStream abort_control (performCleanup B))).
  set (r := mkStream abort_control (performCleanup B)).
  match goal with
  | |- context [after B r (map Emit (send_events B)) ?w] => set (wi := w)
  end.
  assert (Hi : cleanedUp wi = false /\ subscribed wi = true /\ destroys wi = 0)
    by (repeat split).
  assert (Hgen : forall acts w,
             forallb no_teardown_trigger acts = true ->
             cleanedUp w = false /\ subscribed w = true /\ destroys w = 0 ->
             cleanedUp (after B r acts w) = false
             /\ subscribed (after B r acts w) = true
             /\ destroys (after B r acts w) = 0).
  { clear. intros acts. induction acts as [|a acts IH]; intros w Ha Hw; [exact Hw|].
    cbn [forallb] in Ha. apply andb_prop in Ha as [Ha1 Ha].
    apply (IH _ Ha). apply act_keeps_session; assumption. }
  assert (Hev' : forallb no_teardown_trigger (map Emit (send_events B)) = true).
  { clear -Hev. induction (send_events B) as [|ev evs IH]; [reflexivity|].
    cbn in *. apply andb_prop in Hev as [H1 H2]. rewrite H1. apply IH, H2. }
  pose proof (Hgen _ _ Hev' Hi) as H1.
  destruct (Hgen acts _ Hacts H1) as (Hc & Hsub & Hd).
  repeat split; assumption.
Qed.

(** X14. [cleanup] releases the session but does not end the streams.  It
    returns normally and leaves both queues exactly as they were: a
    consumer waiting on one of them is still waiting.  And as the handler
    is unsubscribed, nothing the session emits afterwards reaches the
    queues. *)
Theorem cleanup_leaves_streams_open
  model conversation systemMessage w0 r w1 acts events :
  copilot_sdk_streaming B model conversation systemMessage w0 = (Returned r, w1) ->
  let w2 := after B r acts w1 in
  let w3 := snd (cleanup r w2) in
  fst (cleanup r w2) = Returned tt
  /\ textQueue w3 = textQueue w2
  /\ reasoningQueue w3 = reasoningQueue w2
  /\ destroys w3 = 1
  /\ after B r (map Emit events) w3 = w3.
Proof.
  intros Hrun w2 w3.
  apply streaming_returned in Hrun as [-> T1].
  assert (T2 : tidy w2) by (apply after_tidy, T1).
  change (cleanup (mkStream abort_control (performCleanup B)) w2)
    with (performCleanup B w2) in *.
  destruct (performCleanup_tidy B T2) as [[Ts Td] Tc].
  destruct (performCleanup_queues B w2) as [Qt Qr].
  fold w3 in Ts, Td, Tc, Qt, Qr. rewrite Tc in Ts, Td.
  split; [apply performCleanup_returns|].
  split; [exact Qt|]. split; [exact Qr|]. split; [exact Td|].
  rewrite after_emits. apply emit_all_unsubscribed. exact Ts.
Qed.

End SessionExtras.

(** ** Provider selection and the hosted providers *)

(** X15. The runtime guard agrees with the type: [isEligibleProvider]
    accepts a string exactly when it is the name of one of the nine
    members of [eligible_provider]. *)
Theorem isEligibleProvider_iff (provider : string) :
  isEligibleProvider provider = true
  <-> exists p : eligible_provider, provider_string p = provider.
Proof.
  split.
  - unfold isEligibleProvider, refactored_providers. cbn [existsb].
    intros H.
    repeat (apply orb_prop in H as [H|H];
            [apply String.eqb_eq in H; subst|]);
      try discriminate H.
    + exists openai. reflexivity.
    + exists google. reflexivity.
    + exists anthropic. reflexivity.
    + exists groq. reflexivity.
    + exists ollama. reflexivity.
    + exists openrouter. reflexivity.
    + exists custom. reflexivity.
    + exists perplexity. reflexivity.
    + exists github_copilot. reflexivity.
  - intros [p <-]. destruct p; reflexivity.
Qed.

Section ProviderFacts.
Variable Client : Type.
Variable createOpenAICompatible : option string -> option string -> string -> Client.

Lemma js_property_own {V} key (object : list (string * V)) entry :
  js_lookup key object = Some entry -> js_property key object = OwnProperty entry.
Proof. intros H. unfold js_property. rewrite H. reflexivity. Qed.

(** X16. What [get_provider] does with each name.  A name the guard
    rejects always throws [Invalid provider], listing the nine names.  A
    name the guard accepts, other than [custom], returns the plugin's
    client of that name and leaves the plugin untouched.  For [custom] the
    selected model is looked up in [custom_endpoints] as a property: an
    own entry gives a client built from its endpoint and key; a model
    named like a member of [Object.prototype], with no own entry, still
    gives a client, built with an undefined endpoint and key; in both
    cases the client is stored in [custom_client] and returned, nothing
    else changes.  Only a model that is neither throws [No custom endpoint
    configuration found]. *)
Theorem get_provider_outcomes (provider : string) (plugin : Plugin.t Client) :
  let out := get_provider createOpenAICompatible provider plugin in
  let model := Plugin.settings_model plugin in
  let endpoints := Plugin.settings_custom_endpoints plugin in
  (isEligibleProvider provider = false ->
   out = (Threw (ThrowError
                   (mkError ("Invalid provider: " ++ provider
                             ++ ". Must be one of: openai, google, anthropic, groq, ollama, openrouter, custom, perplexity, github-copilot"))),
          plugin))
  /\ (forall p : eligible_provider,
        provider = provider_string p -> p <> custom ->
        out = (Returned (match p with
                         | openai => Plugin.openai_client plugin
                         | google => Plugin.google_client plugin
                         | anthropic => Plugin.anthropic_client plugin
                         | groq => Plugin.groq_client plugin
                         | ollama => Plugin.ollama_client plugin
                         | openrouter => Plugin.openrouter_client plugin
                         | perplexity => Plugin.perplexity_client plugin
                         | github_copilot => Plugin.copilot_client plugin
                         | custom => Plugin.custom_client plugin
                         end), plugin))
  /\ (provider = "custom"%string ->
      (forall entry,
         js_lookup model endpoints = Some entry ->
         let client := createOpenAICompatible (Some (Plugin.endpoint entry))
                                              (Some (Plugin.api_key entry))
                                              "custom" in
         out = (Returned client, set_custom_client client plugin))
      /\ (js_lookup model endpoints = None ->
          In model object_prototype_members ->
          let client := createOpenAICompatible None None "custom" in
          out = (Returned client, set_custom_client client plugin))
      /\ (js_lookup model endpoints = None ->
          ~ In model object_prototype_members ->
          out = (Threw (ThrowError
                          (mkError ("No custom endpoint configuration found for model: "
                                    ++ model))),
                 plugin))).
Proof.
  intros out model endpoints. unfold out, get_provider. clear out.
  split; [|split].
  - unfold isEligibleProvider, refactored_providers. cbn [existsb]. intros H.
    repeat (apply orb_false_elim in H as [? H]).
    repeat match goal with Hx : (_ =? _)%string = false |- _ => rewrite Hx; clear Hx end.
    reflexivity.
  - intros p -> Hn. destruct p; try reflexivity. contradiction.
  - intros ->. cbn [String.eqb Ascii.eqb Bool.eqb]. fold model endpoints.
    split; [|split].
    + intros entry H. rewrite (js_property_own _ _ H). reflexivity.
    + intros H Hin. unfold js_property. rewrite H.
      assert (E : existsb (String.eqb model) object_prototype_members = true).
      { apply existsb_exists. exists model. split; [exact Hin|apply String.eqb_refl]. }
      rewrite E. reflexivity.
    + intros H Hin. unfold js_property. rewrite H.
      assert (E : existsb (String.eqb model) object_prototype_members = false).
      { destruct (existsb (String.eqb model) object_prototype_members) eqn:E;
          [|reflexivity].
        apply existsb_exists in E as (x & Hx & Hq).
        apply String.eqb_eq in Hq. subst x. contradiction. }
      rewrite E. reflexivity.
Qed.

End ProviderFacts.

Lemma get_provider_outcomes_witness :
  let plugin :=
    Plugin.mk "openai"%string "google"%string "anthropic"%string "groq"%string
              "ollama"%string "openrouter"%string "perplexity"%string
              "copilot"%string "none yet"%string "constructor"%string [] in
  let make := fun (baseURL apiKey : option string) (name : string) =>
                match baseURL with
                | Some url => (name ++ "@" ++ url)%string
                | None => (name ++ "@undefined")%string
                end in
  In "constructor"%string object_prototype_members
  /\ get_provider make "custom" plugin
     = (Returned "custom@undefined"%string,
        set_custom_client "custom@undefined"%string plugin).
Proof.
  intros plugin make.
  split; [left; reflexivity|].
  destruct (@get_provider_outcomes string make "custom"%string plugin)
    as (_ & _ & H).
  destruct (H eq_refl) as (_ & Hi & _).
  apply Hi; [reflexivity|left; reflexivity].
Defined.

(** X17. How [handleError] classifies a streaming failure.  When the event
    carries no error object the handler itself throws a [TypeError] and
    shows nothing.  Otherwise it returns normally and shows exactly one
    notice: the rate-limit notice (with a console line) when some entry of
    [errors] has status code 429, and the unknown-error notice (without
    one) in every other case, a missing [errors] included. *)
Theorem handleError_classifies (provider_name : eligible_provider)
  (event : ErrorEvent.t) (w : World) :
  let out := handleError provider_name event w in
  match ErrorEvent.error event with
  | None => out = (Threw (ThrowError TypeError), w)
  | Some failure =>
      let rate_limited :=
        exists l e, ErrorEvent.errors failure = Some l /\ In e l
                    /\ ErrorEvent.statusCode e = Some 429%Z in
      fst out = Returned tt
      /\ textQueue (snd out) = textQueue w
      /\ reasoningQueue (snd out) = reasoningQueue w
      /\ (rate_limited ->
          notices (snd out)
          = notices w ++ [("Rate limit exceeded for "
                           ++ provider_string provider_name ++ " API")%string]
          /\ console (snd out) = console w ++ ["Rate limit exceeded error"%string])
      /\ (~ rate_limited ->
          notices (snd out)
          = notices w ++ [("Unknown error during "
                           ++ provider_string provider_name ++ " streaming")%string]
          /\ console (snd out) = console w)
  end.
Proof.
  intros out. destruct (ErrorEvent.error event) as [failure|] eqn:Ee.
  2: { unfold out, handleError. rewrite Ee. reflexivity. }
  intros rate_limited. unfold out, handleError. rewrite Ee. clear out.
  assert (Hr : some_rate_limited (ErrorEvent.errors failure) = true <-> rate_limited).
  { unfold some_rate_limited, rate_limited. split.
    - destruct (ErrorEvent.errors failure) as [l|]; [|discriminate].
      intros H. apply existsb_exists in H as (e & Hin & He).
      exists l, e. repeat split; try assumption.
      destruct (ErrorEvent.statusCode e) as [code|]; [|discriminate].
      apply Z.eqb_eq in He. congruence.
    - intros (l & e & -> & Hin & He). apply existsb_exists.
      exists e. split; [exact Hin|]. rewrite He. reflexivity. }
  destruct (some_rate_limited (ErrorEvent.errors failure)) eqn:E.
  - repeat split; try reflexivity;
      match goal with
      | Hn : ~ rate_limited |- _ => exfalso; apply Hn, Hr; reflexivity
      end.
  - repeat split; try reflexivity;
      match goal with
      | H : rate_limited |- _ => apply Hr in H; discriminate H
      end.
Qed.

(** X18. The hosted entry points validate before they call out.  On a
    conversation with a message whose role is none of [system], [user],
    [assistant], [ai_sdk_structured], [ai_sdk_streaming] and
    [ai_sdk_completion] throw the validator's error whatever the backend
    functions would have done: the only effect is the [Calling ...]
    notice, which is shown before validation. *)
Theorem malformed_conversation_never_reaches_backend
  {LanguageModel StreamTextResult : Type}
  (generateObject : GenerateObjectOptions LanguageModel -> Js World JsVal)
  (streamText : StreamTextOptions LanguageModel -> Js World StreamTextResult)
  (generateText : GenerateTextOptions LanguageModel -> Js World string)
  (provider : sdk_provider LanguageModel) (model : string)
  (conversation : list Message.t) (temperature : Z)
  (provider_name : eligible_provider) (schema : Schema) (w0 : World) :
  forallb MessageSchema conversation = false ->
  let w1 := snd (Notice ("Calling " ++ capitalize (provider_string provider_name)) w0) in
  ai_sdk_structured generateObject provider model conversation temperature
    provider_name schema w0 = (Threw (ThrowError ZodError), w1)
  /\ ai_sdk_streaming streamText provider model conversation temperature
       provider_name w0 = (Threw (ThrowError ZodError), w1)
  /\ ai_sdk_completion generateText provider model conversation temperature
       provider_name w0 = (Threw (ThrowError ZodError), w1)
  /\ notices w1
     = notices w0 ++ [("Calling " ++ capitalize (provider_string provider_name))%string].
Proof.
  intros Hv w1.
  unfold ai_sdk_structured, ai_sdk_streaming, ai_sdk_completion,
    ConversationSchema_parse.
  rewrite Hv. repeat split.
Qed.

(** ** The settings tab *)

Lemma endsWith_slash (s : string) :
  endsWith s "/" = true <-> exists pre, s = (pre ++ "/")%string.
Proof.
  unfold endsWith. cbn [String.length].
  induction s as [|c s IH].
  - cbn. split; [discriminate|]. intros [pre H].
    destruct pre; discriminate H.
  - destruct s as [|c' s'].
    + assert (E0 : ((1 <=? String.length (String c ""))
                    && (substring (String.length (String c "") - 1) 1
                                  (String c "") =? "/")%string)
                   = (String c "" =? "/")%string) by reflexivity.
      rewrite E0. split.
      * intros H. apply String.eqb_eq in H. exists ""%string. exact H.
      * intros [pre H]. destruct pre as [|p pre].
        -- cbn in H. rewrite H. reflexivity.
        -- cbn in H. injection H as _ H. destruct pre; discriminate H.
    + assert (E : ((1 <=? String.length (String c (String c' s')))
                   && (substring (String.length (String c (String c' s')) - 1) 1
                                 (String c (String c' s')) =? "/")%string)
                  = ((1 <=? String.length (String c' s'))
                     && (substring (String.length (String c' s') - 1) 1
                                   (String c' s') =? "/")%string)).
      { cbn [String.length]. cbn [Nat.leb Nat.sub].
        rewrite Nat.sub_0_r. reflexivity. }
      rewrite E, IH. split.
      * intros [pre ->]. exists (String c pre). reflexivity.
      * intros [pre H]. destruct pre as [|p pre]; [discriminate H|].
        cbn in H. injection H as _ H. exists pre. exact H.
Qed.

Lemma debouncedSave_step value tab :
  let tab' := debouncedSave value tab in
  (chat_logs_folder tab' = chat_logs_folder tab
   \/ (chat_logs_folder tab' = value /\ acceptable_folder value = true))
  /\ loaded tab' + saved tab = saved tab' + loaded tab
  /\ saved tab <= saved tab'
  /\ length (shown tab) <= length (shown tab')
  /\ saved tab' + length (shown tab') <= saved tab + length (shown tab) + 1.
Proof.
  unfold debouncedSave, acceptable_folder.
  destruct (String.length value <=? 1) eqn:E1.
  { cbn. rewrite length_app. cbn. repeat split; auto; lia. }
  destruct (endsWith value "/") eqn:E2.
  { cbn. rewrite length_app. cbn. repeat split; auto; lia. }
  destruct (value =? chat_logs_folder tab)%string eqn:E3;
    cbn [negb chat_logs_folder saved loaded shown].
  - repeat split; auto; lia.
  - split; [right; split; [reflexivity|]|repeat split; lia].
    apply Nat.leb_gt in E1. apply andb_true_intro.
    split; [apply Nat.ltb_lt; exact E1|reflexivity].
Qed.

(** X19. The chat folder only ever changes to a usable path.  Feed the
    save callback any sequence of typed values: the stored folder ends up
    being the one it started with, or one of the typed values that is
    longer than one character and does not end in a slash.  Every save is
    followed by a reload, and every value triggers at most one thing, a
    notice or a save, never both. *)
Theorem chat_folder_accepts_only_usable_paths (values : list string) (tab : ChatTab) :
  let tab' := fold_left (fun t value => debouncedSave value t) values tab in
  (chat_logs_folder tab' = chat_logs_folder tab
   \/ (In (chat_logs_folder tab') values
       /\ 1 < String.length (chat_logs_folder tab')
       /\ forall pre, chat_logs_folder tab' <> (pre ++ "/")%string))
  /\ loaded tab' + saved tab = saved tab' + loaded tab
  /\ saved tab <= saved tab'
  /\ length (shown tab) <= length (shown tab')
  /\ saved tab' + length (shown tab')
     <= saved tab + length (shown tab) + length values.
Proof.
  revert tab. induction values as [|value values IH]; intros tab tab'.
  - cbn. repeat split; auto; lia.
  - unfold tab'. cbn [fold_left]. clear tab'.
    destruct (IH (debouncedSave value tab)) as (Hf & Hl & Hs & Hn & Hc).
    destruct (debouncedSave_step value tab) as (Hf1 & Hl1 & Hs1 & Hn1 & Hc1).
    split; [|cbn [length]; repeat split; lia].
    destruct Hf as [Hf|(Hin & Hlen & Hpre)].
    + rewrite Hf. destruct Hf1 as [Hf1|[Hf1 Hacc]]; [left; exact Hf1|].
      right. rewrite Hf1. unfold acceptable_folder in Hacc.
      apply andb_prop in Hacc as [Ha1 Ha2].
      apply Nat.ltb_lt in Ha1. apply negb_true_iff in Ha2.
      split; [left; reflexivity|]. split; [exact Ha1|].
      intros pre Hp.
      assert (Hend : endsWith value "/" = true)
        by (apply endsWith_slash; exists pre; exact Hp).
      congruence.
    + right. split; [right; exact Hin|]. split; assumption.
Qed.

Section ModelOptionFacts.
Variable Details : Type.
Implicit Types models defaults current : list (string * ModelEntry Details).

Lemma set_streaming_keys key value models :
  map fst (set_streaming key value models) = map fst models.
Proof.
  induction models as [|[k m] models IH]; [reflexivity|].
  cbn. destruct (k =? key)%string; cbn; [reflexivity|].
  rewrite IH. reflexivity.
Qed.

Lemma set_streaming_lookup key value models key' :
  js_lookup key' (set_streaming key value models)
  = if (key' =? key)%string
    then option_map (fun m => mkModel value (details m)) (js_lookup key models)
    else js_lookup key' models.
Proof.
  unfold js_lookup. induction models as [|[k m] models IH].
  - cbn. destruct (key' =? key)%string; reflexivity.
  - cbn [set_streaming find fst snd].
    destruct (String.eqb_spec k key) as [Ek|Hk]; cbn [find fst snd];
      destruct (String.eqb_spec k key') as [Ek'|Hk'];
      destruct (String.eqb_spec key' key) as [E3|H3];
      subst; try congruence; cbn [option_map snd]; try reflexivity; exact IH.
Qed.

Lemma js_lookup_absent {V} key (object : list (string * V)) :
  ~ In key (map fst object) -> js_lookup key object = None.
Proof.
  unfold js_lookup. induction object as [|[k v] object IH]; intros H; [reflexivity|].
  cbn in *. destruct (String.eqb_spec k key) as [->|_]; [tauto|].
  apply IH. tauto.
Qed.

Lemma sync_streaming_keys defaults current :
  map fst (sync_streaming defaults current) = map fst current.
Proof.
  revert current. induction defaults as [|[k v] defaults IH]; intros current;
    [reflexivity|].
  cbn [sync_streaming]. rewrite IH.
  destruct (js_lookup k current); [apply set_streaming_keys|reflexivity].
Qed.

Lemma sync_streaming_lookup defaults current key :
  NoDup (map fst defaults) ->
  js_lookup key (sync_streaming defaults current)
  = option_map (fun m => match js_lookup key defaults with
                         | Some d => mkModel (streaming d) (details m)
                         | None => m
                         end)
               (js_lookup key current).
Proof.
  revert current. induction defaults as [|[k v] defaults IH]; intros current Hnd.
  - cbn. destruct (js_lookup key current); reflexivity.
  - inversion Hnd as [|? ? Hk Hnd']; subst.
    cbn [sync_streaming]. rewrite (IH _ Hnd').
    assert (F1 : js_lookup key ((k, v) :: defaults)
                 = if (k =? key)%string then Some v else js_lookup key defaults).
    { unfold js_lookup. cbn [find fst snd].
      destruct (k =? key)%string; reflexivity. }
    assert (F2 : js_lookup key
                   (match js_lookup k current with
                    | Some _ => set_streaming k (streaming v) current
                    | None => current
                    end)
                 = if (key =? k)%string
                   then option_map (fun m => mkModel (streaming v) (details m))
                                   (js_lookup k current)
                   else js_lookup key current).
    { destruct (js_lookup k current) eqn:L.
      - rewrite set_streaming_lookup, L. reflexivity.
      - destruct (String.eqb_spec key k) as [Ek|_]; [|reflexivity].
        rewrite Ek, L. reflexivity. }
    rewrite F1, F2.
    destruct (String.eqb_spec key k) as [Ek|Hne].
    + rewrite Ek, String.eqb_refl, (js_lookup_absent _ _ Hk).
      destruct (js_lookup k current); reflexivity.
    + assert (Hne' : (k =? key)%string = false)
        by (apply String.eqb_neq; congruence).
      rewrite Hne'. reflexivity.
Qed.

(** X20. What constructing the settings tab does to the Anthropic models.
    When the user's settings have an [anthropic] table, every model of it
    that the defaults also list gets the default's [streaming] flag, with
    its other fields kept; models the defaults do not list are untouched,
    no model is added or removed, and the settings are saved once.
    Constructing the tab again changes nothing more.  Without an
    [anthropic] table nothing is changed and nothing is saved. *)
Theorem constructor_syncs_anthropic_streaming (tables : ProviderTables Details) :
  NoDup (map fst (default_anthropic tables)) ->
  let tables' := CaretSettingTab_constructor tables in
  match current_anthropic tables with
  | None => tables' = tables
  | Some current =>
      exists current',
        current_anthropic tables' = Some current'
        /\ map fst current' = map fst current
        /\ (forall key,
              js_lookup key current'
              = option_map
                  (fun m => match js_lookup key (default_anthropic tables) with
                            | Some d => mkModel (streaming d) (details m)
                            | None => m
                            end)
                  (js_lookup key current))
        /\ default_anthropic tables' = default_anthropic tables
        /\ settings_saved tables' = S (settings_saved tables)
        /\ (forall key,
              option_map
                (fun models => js_lookup key models)
                (current_anthropic (CaretSettingTab_constructor tables'))
              = Some (js_lookup key current'))
  end.
Proof.
  intros Hnd tables'. unfold tables', CaretSettingTab_constructor. clear tables'.
  destruct (current_anthropic tables) as [current|] eqn:E; [|reflexivity].
  cbn [current_anthropic default_anthropic settings_saved].
  eexists. split; [reflexivity|].
  split; [apply sync_streaming_keys|].
  split; [intros key; apply sync_streaming_lookup, Hnd|].
  split; [reflexivity|]. split; [reflexivity|].
  intros key. cbn [option_map]. f_equal.
  rewrite !sync_streaming_lookup by exact Hnd.
  destruct (js_lookup key current) as [m|]; [|reflexivity].
  cbn [option_map].
  destruct (js_lookup key (default_anthropic tables)); reflexivity.
Qed.

End ModelOptionFacts.

(** ** Concrete runs of the properties above *)

Lemma conversation_without_user_rejected_witness :
  copilot_sdk_streaming quiet_backend "gpt-5"
    [Message.mk "system" "be brief"; Message.mk "assistant" "hello"] None world0
  = (Threw (ThrowError (mkError "No user message found in conversation")),
     snd (Notice "Calling GitHub Copilot" world0)).
Proof.
  apply (@conversation_without_user_rejected quiet_backend "gpt-5"%string
           [Message.mk "system" "be brief"; Message.mk "assistant" "hello"]
           None world0 eq_refl eq_refl).
Defined.

Lemma malformed_conversation_rejected_by_copilot_witness :
  copilot_sdk_completion quiet_backend "gpt-5"
    [Message.mk "user" "hi"; Message.mk "tool" "result"] None world0
  = (Threw (ThrowError ZodError), snd (Notice "Calling GitHub Copilot" world0)).
Proof.
  apply (@malformed_conversation_rejected_by_copilot quiet_backend "gpt-5"%string
           [Message.mk "user" "hi"; Message.mk "tool" "result"]
           None world0 eq_refl).
Defined.

Lemma only_last_user_message_sent_witness :
  sent (snd (copilot_sdk_streaming quiet_backend "gpt-5"
               ([Message.mk "user" "first"; Message.mk "assistant" "reply"]
                ++ Message.mk "user" "second" :: [Message.mk "assistant" "ok"])
               None world0))
  = ["second"%string].
Proof.
  apply (@only_last_user_message_sent quiet_backend "gpt-5"%string
           [Message.mk "user" "first"; Message.mk "assistant" "reply"]
           (Message.mk "user" "second") [Message.mk "assistant" "ok"]
           None world0 eq_refl eq_refl eq_refl eq_refl).
Defined.

Lemma deltas_then_idle_observed_witness :
  let B := mkBackend None (map chunk_event [TextChunk "He"; ReasoningChunk "hm"])
                     None (Returned None) None in
  starts B sample_conversation = true
  /\ match copilot_sdk_streaming B "gpt-5" sample_conversation None world0 with
     | (Returned r, w1) =>
         let w2 := after B r (map Emit (map chunk_event [TextChunk "llo"]
                                        ++ [idle_event])) w1 in
         fst (pull_until_done 3 (textQueue w2))
         = delivered (texts ([TextChunk "He"; ReasoningChunk "hm"]
                             ++ [TextChunk "llo"]))
           ++ [Settled (Resolve IterDone)]
     | (Threw _, _) => False
     end.
Proof.
  intros B. split; [reflexivity|].
  pose proof (@deltas_then_idle_observed B "gpt-5"%string sample_conversation
                None world0 [TextChunk "He"; ReasoningChunk "hm"]
                [TextChunk "llo"] eq_refl eq_refl eq_refl
                ltac:(vm_compute; discriminate) ltac:(vm_compute; discriminate))
    as H.
  destruct (copilot_sdk_streaming B "gpt-5" sample_conversation None world0)
    as [[r|t] w1]; [|exact H].
  destruct H as (H & _). apply H. cbn. lia.
Defined.

Lemma deltas_then_error_observed_witness :
  let B := mkBackend None (map chunk_event [TextChunk "He"])
                     None (Returned None) None in
  starts B sample_conversation = true
  /\ match copilot_sdk_streaming B "gpt-5" sample_conversation None world0 with
     | (Returned r, w1) =>
         let w2 := after B r (map Emit (map chunk_event []
                                        ++ [error_event "rate limited"])) w1 in
         fst (pull_until_done 2 (textQueue w2))
         = delivered (texts ([TextChunk "He"] ++ []))
           ++ [Settled (Reject (mkError ("Copilot streaming error: "
                                         ++ or_default (Some "rate limited"%string)
                                                       "Unknown error")))]
         /\ destroys w2 = 1
     | (Threw _, _) => False
     end.
Proof.
  intros B. split; [reflexivity|].
  pose proof (@deltas_then_error_observed B "gpt-5"%string sample_conversation
                None world0 [TextChunk "He"] [] "rate limited"%string []
                eq_refl eq_refl eq_refl
                ltac:(vm_compute; discriminate) ltac:(vm_compute; discriminate))
    as H.
  destruct (copilot_sdk_streaming B "gpt-5" sample_conversation None world0)
    as [[r|t] w1]; [|exact H].
  destruct H as (H & _ & Hd & _). split; [|exact Hd]. apply H. cbn. lia.
Defined.

Lemma session_lives_until_cleanup_witness :
  let B := quiet_backend in
  starts B sample_conversation = true
  /\ match copilot_sdk_streaming B "gpt-5" sample_conversation None world0 with
     | (Returned r, w1) =>
         destroys (after B r [Emit (delta_event "He"); CallAbort;
                              Emit idle_event; PullText] w1) = 0
     | (Threw _, _) => False
     end.
Proof.
  intros B. split; [reflexivity|].
  pose proof (@session_lives_until_cleanup B "gpt-5"%string sample_conversation
                None world0 [Emit (delta_event "He"); CallAbort;
                             Emit idle_event; PullText]
                eq_refl eq_refl eq_refl eq_refl) as H.
  destruct (copilot_sdk_streaming B "gpt-5" sample_conversation None world0)
    as [[r|t] w1]; [|exact H].
  apply H.
Defined.

Lemma cleanup_leaves_streams_open_witness :
  let B := quiet_backend in
  match copilot_sdk_streaming B "gpt-5" sample_conversation None world0 with
  | (Returned r, w1) =>
      let w2 := after B r [PullText] w1 in
      let w3 := snd (cleanup r w2) in
      textQueue w3 = textQueue w2
      /\ after B r (map Emit [delta_event "late"; idle_event]) w3 = w3
  | (Threw _, _) => False
  end.
Proof.
  intros B.
  destruct (copilot_sdk_streaming B "gpt-5" sample_conversation None world0)
    as [[r|t] w1] eqn:E.
  - destruct (@cleanup_leaves_streams_open B "gpt-5"%string sample_conversation
                None world0 r w1 [PullText] [delta_event "late"; idle_event] E)
      as (_ & Ht & _ & _ & He).
    split; [exact Ht|exact He].
  - vm_compute in E. discriminate E.
Defined.

Lemma malformed_conversation_never_reaches_backend_witness :
  ai_sdk_completion (fun _ => ret "generated"%string) sample_provider "some-model"
    [Message.mk "tool" "result"] 0 openai world0
  = (Threw (ThrowError ZodError), snd (Notice "Calling Openai" world0)).
Proof.
  apply (@malformed_conversation_never_reaches_backend string unit
           (generateObject_contract hello_backend) (fun _ => ret tt)
           (fun _ => ret "generated"%string) sample_provider "some-model"%string
           [Message.mk "tool" "result"] 0%Z openai z_string world0 eq_refl).
Defined.

Lemma constructor_syncs_anthropic_streaming_witness :
  let tables :=
    mkTables [("claude-3"%string, mkModel true tt)]
             (Some [("claude-3"%string, mkModel false tt);
                    ("my-model"%string, mkModel false tt)]) 0 in
  NoDup (map fst (default_anthropic tables))
  /\ exists current',
       current_anthropic (CaretSettingTab_constructor tables) = Some current'
       /\ js_lookup "claude-3" current' = Some (mkModel true tt)
       /\ js_lookup "my-model" current' = Some (mkModel false tt).
Proof.
  intros tables.
  assert (Hnd : NoDup (map fst (default_anthropic tables))).
  { cbn. constructor; [intros []|constructor]. }
  split; [exact Hnd|].
  destruct (@constructor_syncs_anthropic_streaming unit tables Hnd)
    as (current' & Hc & _ & Hl & _).
  exists current'. split; [exact Hc|].
  split; rewrite Hl; reflexivity.
Defined.

(** ** Where pushed values go *)

Section Conservation.
Context {T : Type}.
Implicit Type q : AsyncEventQueue.t T.

Lemma values_accounted_from (ops : list (Op T)) :
  forall q,
    only_push_next ops = true ->
    done q = false ->
    (1 <= maxSize q)%Z ->
    (Z.of_nat (length (queue q)) <= maxSize q)%Z ->
    let rs := fst (trace ops q) in
    let q' := snd (trace ops q) in
    length (filter hands_value rs) + length (settled q')
    + length (queue q') + warnings q'
    = length (settled q) + length (queue q) + warnings q + length (pushed ops).
Proof.
  induction ops as [|o ops IH]; intros q Hops D HC Hb rs q'.
  - unfold rs, q'. cbn. lia.
  - cbn [only_push_next forallb] in Hops. apply andb_prop in Hops as [Ho Hops].
    fold (only_push_next ops) in Hops.
    destruct o as [v| |e|]; try discriminate Ho.
    + unfold rs, q'. cbn [trace pushed flat_map app length step].
      fold (pushed ops).
      assert (H1 : done (push v q) = false /\ maxSize (push v q) = maxSize q
                   /\ (Z.of_nat (length (queue (push v q))) <= maxSize q)%Z
                   /\ length (settled (push v q)) + length (queue (push v q))
                      + warnings (push v q)
                      = S (length (settled q) + length (queue q) + warnings q)).
      { unfold push. rewrite D. destruct (resolvers q).
        - destruct (Z.of_nat (length (queue q)) >=? maxSize q)%Z eqn:E; cbn.
          + rewrite Z.geb_leb in E. apply Z.leb_le in E.
            rewrite length_app. destruct (queue q); cbn in *; repeat split; try reflexivity; try assumption; lia.
          + rewrite Z.geb_leb in E. apply Z.leb_gt in E.
            rewrite length_app. cbn. repeat split; try reflexivity; try assumption; lia.
        - cbn. rewrite length_app. cbn. repeat split; try reflexivity; try assumption; lia. }
      destruct H1 as (D1 & M1 & B1 & N1).
      pose proof (IH (push v q) Hops D1) as IH1. rewrite M1 in IH1.
      specialize (IH1 HC B1). cbv zeta in IH1. lia.
    + unfold rs, q'. cbn [trace pushed flat_map app].
      fold (pushed ops).
      destruct (next q) as [r q1] eqn:En.
      assert (H1 : done q1 = false /\ maxSize q1 = maxSize q
                   /\ (Z.of_nat (length (queue q1)) <= maxSize q)%Z
                   /\ (if hands_value r then 1 else 0)
                      + length (settled q1) + length (queue q1) + warnings q1
                      = length (settled q) + length (queue q) + warnings q).
      { unfold next in En. destruct (queue q) as [|v b] eqn:Q.
        - destruct (error q).
          + injection En as <- <-. rewrite ?Q. cbn.
            rewrite ?Q in *. cbn in *. repeat split; try reflexivity; try assumption; lia.
          + rewrite D in En. injection En as <- <-. cbn. rewrite ?Q in *. cbn in *.
            repeat split; try reflexivity; try assumption; lia.
        - injection En as <- <-. cbn in *. repeat split; try reflexivity; try assumption; lia. }
      destruct H1 as (D1 & M1 & B1 & N1).
      pose proof (IH q1 Hops D1) as IH1. rewrite M1 in IH1.
      specialize (IH1 HC B1). cbv zeta in IH1.
      destruct (trace ops q1) as [rs1 q2]. cbn [fst snd filter] in *.
      destruct (hands_value r); cbn [length]; lia.
Qed.

(** X21. No pushed value vanishes unreported.  In any history of [push]
    and [next] calls on a fresh queue of capacity at least one, every
    value pushed is in exactly one of four places: handed to a [next]
    call that found it buffered, handed to a consumer that was waiting,
    still in the buffer, or dropped with a console warning. *)
Theorem pushed_values_accounted_for (C : Z) (ops : list (Op T)) :
  only_push_next ops = true ->
  (1 <= C)%Z ->
  let promises_made := fst (trace ops (create C)) in
  let q := run ops (create C) in
  length (filter hands_value promises_made) + length (settled q)
  + length (queue q) + warnings q
  = length (pushed ops).
Proof.
  intros Hops HC promises_made q. unfold q, promises_made.
  rewrite <- trace_run.
  pose proof (@values_accounted_from ops (create C) Hops eq_refl HC) as H.
  cbv zeta in H. rewrite H; [reflexivity|]. cbn. lia.
Qed.

End Conservation.

Lemma pushed_values_accounted_for_witness :
  let ops := [OpPush "a"; OpPush "b"; OpPush "c"; OpNext; OpNext; OpNext;
              OpPush "d"]%string in
  only_push_next ops = true
  /\ length (filter hands_value (fst (trace ops (create 2))))
     + length (settled (run ops (create 2)))
     + length (queue (run ops (create 2))) + warnings (run ops (create 2))
     = 4.
Proof.
  intros ops. split; [reflexivity|].
  apply (@pushed_values_accounted_for string 2 ops eq_refl).
  vm_compute. discriminate.
Defined.
